(** * Receipt analyzer: ingestion, normalization, rendering and chat bridge

    A shallow embedding of the three TypeScript modules of the application

      - [src/components/ReceiptUpload.tsx]   (File Intake),
      - [src/App.tsx]                        (Extraction Orchestrator,
                                              Response Normalizer, Chat Bridge),
      - [src/components/ReceiptAnalysis.tsx] (Renderer),

    together with the part of the JavaScript platform they rely on (strings of
    UTF-16 code units, [trim], [startsWith], the two fence regular
    expressions, [JSON.parse], truthiness, property reads and template
    literals), followed by the properties of the specification. *)

From Stdlib Require Import NArith ZArith String Ascii Bool Lia List.
From Stdlib Require Import Floats.SpecFloat.
Import ListNotations.

Local Open Scope N_scope.

(* ================================================================== *)
(** * The JavaScript platform *)
(* ================================================================== *)

Module JS.

(** ** Strings

    A JavaScript string is a finite sequence of UTF-16 code units. *)

Definition char16 := N.
Definition jsstring := list char16.

(** ASCII literals of the source are written [lit "..."]. *)
Definition lit (s : string) : jsstring :=
  List.map N_of_ascii (list_ascii_of_string s).

(** The literal between quotation marks (U+0022). *)
Definition quoted (s : string) : jsstring := 34 :: lit s ++ [34].

(** A [File] of the DOM: its name and its declared media type. *)
Record File := { file_name : jsstring; file_type : jsstring }.

Fixpoint str_eqb (a b : jsstring) : bool :=
  match a, b with
  | [], [] => true
  | x :: a', y :: b' => (x =? y) && str_eqb a' b'
  | _, _ => false
  end.

(** [WhiteSpace] and [LineTerminator] of ECMAScript: the characters removed
    by [String.prototype.trim] and matched by the regular expression class
    [\s]. *)
Definition is_space (c : char16) : bool :=
  (c =? 9) || (c =? 10) || (c =? 11) || (c =? 12) || (c =? 13) || (c =? 32)
  || (c =? 160) || (c =? 5760) || ((8192 <=? c) && (c <=? 8202))
  || (c =? 8232) || (c =? 8233) || (c =? 8239) || (c =? 8287)
  || (c =? 12288) || (c =? 65279).

(** A string of white space only. *)
Definition spaces (ws : jsstring) : Prop := Forall (fun c => is_space c = true) ws.

Fixpoint trimStart (s : jsstring) : jsstring :=
  match s with
  | c :: r => if is_space c then trimStart r else s
  | [] => []
  end.

Fixpoint trimEnd (s : jsstring) : jsstring :=
  match s with
  | [] => []
  | c :: r =>
      match trimEnd r with
      | [] => if is_space c then [] else [c]
      | r' => c :: r'
      end
  end.

(** [s.trim()] *)
Definition trim (s : jsstring) : jsstring := trimEnd (trimStart s).

(** [s.startsWith(p)], given as the remainder after the prefix. *)
Fixpoint strip_prefix (p s : jsstring) : option jsstring :=
  match p, s with
  | [], _ => Some s
  | x :: p', y :: s' => if x =? y then strip_prefix p' s' else None
  | _ :: _, [] => None
  end.

Definition startsWith (s p : jsstring) : bool :=
  match strip_prefix p s with Some _ => true | None => false end.

(** ** Regular expressions of the normalizer

    [s.replace(/^F\s*/, '')] for a literal [F]: the pattern is anchored at
    the start of the input, so the only candidate match is at position 0;
    [\s*] is greedy and nothing follows it, so it takes the whole run of
    white space. Without a match the string is returned as it is. *)
Definition replace_open (F s : jsstring) : jsstring :=
  match strip_prefix F s with
  | Some r => trimStart r
  | None => s
  end.

(** Does [\s*```$] match the whole of [s]?  The fence begins with a character
    that is not white space, so the greedy run of [\s*] is the only split
    that can succeed. *)
Definition fence : jsstring := lit "```".

Definition matches_close (s : jsstring) : bool := str_eqb (trimStart s) fence.

(** [s.replace(/\s*```$/, '')]: the regular expression has no [g] flag, so
    the leftmost match is removed; [$] (no [m] flag) is the end of input, so
    a match at position [i] is a match of the whole suffix from [i]. *)
Fixpoint replace_close (s : jsstring) : jsstring :=
  match s with
  | [] => []
  | c :: r => if matches_close s then [] else c :: replace_close r
  end.

(** ** Values

    Numbers are IEEE 754 binary64 values, in the Standard Library's
    specification of floating-point numbers. *)

Definition number := spec_float.
Definition prec : Z := 53.
Definition emax : Z := 1024.

Definition number_of_nat (n : nat) : number :=
  binary_normalize prec emax (Z.of_nat n) 0 false.

Definition zero : number := S754_zero false.

(** The values [JSON.parse] can return, and [undefined]. The properties of an
    object are kept in insertion order. *)
#[warnings="-register-all"]
Inductive JSValue :=
| JUndefined
| JNull
| JBool (b : bool)
| JNumber (x : number)
| JString (s : jsstring)
| JArray (xs : list JSValue)
| JObject (props : list (jsstring * JSValue)).

Inductive exn :=
| SyntaxError
| TypeError
| Error (message : jsstring)
| Rejected (reason : jsstring).   (* a collaborator's promise was rejected *)

Definition completion (A : Type) := (exn + A)%type.

(** [ToBoolean]: the truthiness tested by [!v], [v || d] and [v && e]. *)
Definition number_truthy (x : number) : bool :=
  match x with
  | S754_zero _ | S754_nan => false
  | _ => true
  end.

Definition ToBoolean (v : JSValue) : bool :=
  match v with
  | JUndefined | JNull => false
  | JBool b => b
  | JNumber x => number_truthy x
  | JString s => match s with [] => false | _ => true end
  | JArray _ | JObject _ => true
  end.

(** [v || d] *)
Definition or_else (v d : JSValue) : JSValue := if ToBoolean v then v else d.

Fixpoint lookup (k : jsstring) (props : list (jsstring * JSValue)) : option JSValue :=
  match props with
  | [] => None
  | (k', v) :: rest => if str_eqb k k' then Some v else lookup k rest
  end.

Definition has_own (k : jsstring) (props : list (jsstring * JSValue)) : bool :=
  match lookup k props with Some _ => true | None => false end.

(** [CreateDataProperty]: an existing key keeps its place and takes the new
    value, a new key is appended. *)
Fixpoint set_property (props : list (jsstring * JSValue)) (k : jsstring) (v : JSValue)
  : list (jsstring * JSValue) :=
  match props with
  | [] => [(k, v)]
  | (k', v') :: rest =>
      if str_eqb k k' then (k', v) :: rest else (k', v') :: set_property rest k v
  end.

Definition own_or_undefined (k : jsstring) (props : list (jsstring * JSValue))
  : JSValue :=
  match lookup k props with Some x => x | None => JUndefined end.

(** The property read [v.k], for the keys the program reads: [merchant],
    [date], [total], [subtotal], [tax], [items], [category], [name], [price]
    and [length]. None of them is an array index or a member of a built-in
    prototype other than [length] of arrays and strings, so the read is
    decided by the own properties. Reading from [null] or [undefined]
    throws. *)
Definition Get (v : JSValue) (k : jsstring) : completion JSValue :=
  match v with
  | JUndefined | JNull => inl TypeError
  | JObject props => inr (own_or_undefined k props)
  | JArray xs =>
      inr (if str_eqb k (lit "length") then JNumber (number_of_nat (length xs))
           else JUndefined)
  | JString s =>
      inr (if str_eqb k (lit "length") then JNumber (number_of_nat (length s))
           else JUndefined)
  | JBool _ | JNumber _ => inr JUndefined
  end.

(** ** Text with symbolic number formatting

    [Number::toString] and [toFixed] are not modelled digit by digit: a text
    is a sequence of fragments, and a formatted number is a fragment that
    names the number. *)
Inductive frag :=
| Chars (s : jsstring)
| NumberToString (x : number)
| ToFixed (x : number) (digits : nat).

Definition text := list frag.

(** [ToString(v)] as applied by a template literal. For an array it is
    [join(",")], where [null] and [undefined] elements give the empty
    string. For an object of [JSON.parse] it is ["[object Object]"], unless
    the object has an own property [toString]: that value is not callable,
    [valueOf] returns the object itself, and the conversion throws. *)
Fixpoint ToString (v : JSValue) : completion text :=
  match v with
  | JUndefined => inr [Chars (lit "undefined")]
  | JNull => inr [Chars (lit "null")]
  | JBool true => inr [Chars (lit "true")]
  | JBool false => inr [Chars (lit "false")]
  | JNumber x => inr [NumberToString x]
  | JString s => inr [Chars s]
  | JArray xs =>
      (fix join (first : bool) (l : list JSValue) : completion text :=
         match l with
         | [] => inr []
         | x :: l' =>
             let sep := if first then [] else [Chars (lit ",")] in
             match (match x with
                    | JUndefined | JNull => inr []
                    | _ => ToString x
                    end) with
             | inl e => inl e
             | inr t =>
                 match join false l' with
                 | inl e => inl e
                 | inr t' => inr (sep ++ t ++ t')
                 end
             end
         end) true xs
  | JObject props =>
      if has_own (lit "toString") props then inl TypeError
      else inr [Chars (lit "[object Object]")]
  end.

End JS.

(* ================================================================== *)
(** * [JSON.parse] *)
(* ================================================================== *)

Module JSON.
Import JS.

(** JSON white space: tab, line feed, carriage return and space. *)
Definition is_json_ws (c : char16) : bool :=
  (c =? 9) || (c =? 10) || (c =? 13) || (c =? 32).

Fixpoint skip_ws (s : jsstring) : jsstring :=
  match s with
  | c :: r => if is_json_ws c then skip_ws r else s
  | [] => []
  end.

Definition is_digit (c : char16) : bool := (48 <=? c) && (c <=? 57).

Definition hex_digit (c : char16) : option N :=
  if is_digit c then Some (c - 48)
  else if (97 <=? c) && (c <=? 102) then Some (c - 87)
  else if (65 <=? c) && (c <=? 70) then Some (c - 55)
  else None.

Definition hex4 (a b c d : char16) : option char16 :=
  match hex_digit a, hex_digit b, hex_digit c, hex_digit d with
  | Some x, Some y, Some z, Some w => Some (((x * 16 + y) * 16 + z) * 16 + w)
  | _, _, _, _ => None
  end.

(** The single-character escapes: quotation mark, reverse solidus, solidus,
    [b], [f], [n], [r], [t]. *)
Definition escape (c : char16) : option char16 :=
  if (c =? 34) || (c =? 92) || (c =? 47) then Some c
  else if c =? 98 then Some 8
  else if c =? 102 then Some 12
  else if c =? 110 then Some 10
  else if c =? 114 then Some 13
  else if c =? 116 then Some 9
  else None.

Definition cons_fst (c : char16) (r : option (jsstring * jsstring))
  : option (jsstring * jsstring) :=
  match r with
  | Some (cs, rest) => Some (c :: cs, rest)
  | None => None
  end.

(** The characters of a string literal, after its opening quotation mark, up
    to and including the closing one. Control characters below U+0020 are
    not allowed unescaped. *)
Fixpoint parse_chars (s : jsstring) : option (jsstring * jsstring) :=
  match s with
  | [] => None
  | c :: r =>
      if c =? 34 then Some ([], r)
      else if c =? 92 then
        match r with
        | [] => None
        | e :: r1 =>
            if e =? 117 then
              match r1 with
              | h1 :: h2 :: h3 :: h4 :: r2 =>
                  match hex4 h1 h2 h3 h4 with
                  | Some u => cons_fst u (parse_chars r2)
                  | None => None
                  end
              | _ => None
              end
            else
              match escape e with
              | Some u => cons_fst u (parse_chars r1)
              | None => None
              end
        end
      else if c <? 32 then None
      else cons_fst c (parse_chars r)
  end.

Fixpoint take_digits (s : jsstring) : list N * jsstring :=
  match s with
  | c :: r =>
      if is_digit c then let '(ds, rest) := take_digits r in ((c - 48) :: ds, rest)
      else ([], s)
  | [] => ([], [])
  end.

Definition digits_value (ds : list N) : N :=
  fold_left (fun acc d => acc * 10 + d) ds 0.

(** The binary64 value nearest to [m * 10^e] (ties to even), with the sign
    [neg]. *)
Definition double_of_decimal (neg : bool) (m : N) (e : Z) : number :=
  match m with
  | N0 => S754_zero neg
  | Npos p =>
      if (0 <=? e)%Z then
        binary_normalize prec emax
          (if neg then Z.neg p * 10 ^ e else Z.pos p * 10 ^ e)%Z 0 neg
      else
        SFdiv prec emax (S754_finite neg p 0)
          (S754_finite false (Z.to_pos (10 ^ (- e))) 0)
  end.

(** A number: an optional minus sign; an integer part that is [0] or starts
    with a digit from 1 to 9; an optional fraction of a point and at least one
    digit; an optional exponent of [e] or [E], an optional sign and at least
    one digit. *)
Definition parse_number (s : jsstring) : option (number * jsstring) :=
  let '(neg, s1) :=
    match s with
    | c :: r => if c =? 45 then (true, r) else (false, s)
    | [] => (false, s)
    end in
  let int_part :=
    match s1 with
    | c :: r =>
        if c =? 48 then Some ([0], r)
        else if is_digit c then Some (take_digits s1)
        else None
    | [] => None
    end in
  match int_part with
  | None => None
  | Some (ids, s2) =>
      let frac_part :=
        match s2 with
        | c :: r =>
            if c =? 46 then
              match take_digits r with
              | ([], _) => None
              | (fds, rest) => Some (fds, rest)
              end
            else Some ([], s2)
        | [] => Some ([], s2)
        end in
      match frac_part with
      | None => None
      | Some (fds, s3) =>
          let exp_part :=
            match s3 with
            | c :: r =>
                if (c =? 101) || (c =? 69) then
                  let '(eneg, r1) :=
                    match r with
                    | sg :: r' =>
                        if sg =? 45 then (true, r')
                        else if sg =? 43 then (false, r')
                        else (false, r)
                    | [] => (false, r)
                    end in
                  match take_digits r1 with
                  | ([], _) => None
                  | (eds, rest) =>
                      let e := Z.of_N (digits_value eds) in
                      Some ((if eneg then - e else e)%Z, rest)
                  end
                else Some (0%Z, s3)
            | [] => Some (0%Z, s3)
            end in
          match exp_part with
          | None => None
          | Some (e, rest) =>
              Some (double_of_decimal neg (digits_value (ids ++ fds))
                      (e - Z.of_nat (length fds))%Z, rest)
          end
      end
  end.

Definition expect (c : char16) (s : jsstring) : option jsstring :=
  match s with
  | x :: r => if x =? c then Some r else None
  | [] => None
  end.

Definition keyword (k : string) (v : JSValue) (s : jsstring)
  : option (JSValue * jsstring) :=
  match strip_prefix (lit k) s with
  | Some rest => Some (v, rest)
  | None => None
  end.

(** The JSON grammar (ECMA-404). Every recursive call is made after at least
    one character has been consumed, and spends one unit of [fuel]. *)
Fixpoint parse_value (fuel : nat) (s : jsstring) {struct fuel}
  : option (JSValue * jsstring) :=
  match fuel with
  | O => None
  | S fuel' =>
      match skip_ws s with
      | [] => None
      | c :: r =>
          if c =? 123 then                              (* { *)
            match expect 125 (skip_ws r) with           (* } *)
            | Some rest => Some (JObject [], rest)
            | None =>
                match parse_members fuel' r [] with
                | Some (props, rest) => Some (JObject props, rest)
                | None => None
                end
            end
          else if c =? 91 then                          (* [ *)
            match expect 93 (skip_ws r) with            (* ] *)
            | Some rest => Some (JArray [], rest)
            | None =>
                match parse_elements fuel' r [] with
                | Some (xs, rest) => Some (JArray xs, rest)
                | None => None
                end
            end
          else if c =? 34 then
            match parse_chars r with
            | Some (str, rest) => Some (JString str, rest)
            | None => None
            end
          else if c =? 116 then keyword "true" (JBool true) (c :: r)
          else if c =? 102 then keyword "false" (JBool false) (c :: r)
          else if c =? 110 then keyword "null" JNull (c :: r)
          else
            match parse_number (c :: r) with
            | Some (x, rest) => Some (JNumber x, rest)
            | None => None
            end
      end
  end

with parse_members (fuel : nat) (s : jsstring) (acc : list (jsstring * JSValue))
  {struct fuel} : option (list (jsstring * JSValue) * jsstring) :=
  match fuel with
  | O => None
  | S fuel' =>
      match expect 34 (skip_ws s) with
      | None => None
      | Some r =>
          match parse_chars r with
          | None => None
          | Some (k, r1) =>
              match expect 58 (skip_ws r1) with         (* : *)
              | None => None
              | Some r2 =>
                  match parse_value fuel' r2 with
                  | None => None
                  | Some (v, r3) =>
                      let acc' := set_property acc k v in
                      match skip_ws r3 with
                      | [] => None
                      | d :: r4 =>
                          if d =? 44 then parse_members fuel' r4 acc'
                          else if d =? 125 then Some (acc', r4)
                          else None
                      end
                  end
              end
          end
      end
  end

with parse_elements (fuel : nat) (s : jsstring) (acc : list JSValue)
  {struct fuel} : option (list JSValue * jsstring) :=
  match fuel with
  | O => None
  | S fuel' =>
      match parse_value fuel' s with
      | None => None
      | Some (v, r1) =>
          match skip_ws r1 with
          | [] => None
          | d :: r2 =>
              if d =? 44 then parse_elements fuel' r2 (acc ++ [v])
              else if d =? 93 then Some (acc ++ [v], r2)
              else None
          end
      end
  end.

(** [JSON.parse(s)]: one value, surrounded by optional white space; [None]
    stands for the [SyntaxError]. *)
Definition parse (s : jsstring) : option JSValue :=
  match parse_value (S (length s)) s with
  | Some (v, rest) => match skip_ws rest with [] => Some v | _ => None end
  | None => None
  end.

End JSON.

(* ================================================================== *)
(** * File Intake: [src/components/ReceiptUpload.tsx] *)
(* ================================================================== *)

Module ReceiptUpload.
Import JS.

(** The component state of [useState]. *)
Record State := { dragActive : bool; selectedFile : option File }.

(** What a handler does: the next state and the calls of the [onUpload]
    property, in order. *)
Definition Outcome := (State * list File)%type.

Inductive DragType := dragenter | dragover | dragleave | drop.

Definition handleDrag (type : DragType) (st : State) : Outcome :=
  match type with
  | dragenter | dragover => ({| dragActive := true; selectedFile := selectedFile st |}, [])
  | dragleave => ({| dragActive := false; selectedFile := selectedFile st |}, [])
  | drop => (st, [])
  end.

(** [files] is [e.dataTransfer.files]; a missing or empty list has no
    [files[0]]. *)
Definition handleDrop (files : list File) (st : State) : Outcome :=
  let st1 := {| dragActive := false; selectedFile := selectedFile st |} in
  match files with
  | file :: _ =>
      if startsWith (file_type file) (lit "image/") then
        ({| dragActive := dragActive st1; selectedFile := Some file |}, [file])
      else (st1, [])
  | [] => (st1, [])
  end.

(** [files] is [e.target.files] of the file input. *)
Definition handleFileSelect (files : list File) (st : State) : Outcome :=
  match files with
  | file :: _ =>
      ({| dragActive := dragActive st; selectedFile := Some file |}, [file])
  | [] => (st, [])
  end.

Definition clearFile (st : State) : State :=
  {| dragActive := dragActive st; selectedFile := None |}.

(** The two ways a file reaches File Intake. *)
Inductive Delivery :=
| PointerDrop (files : list File)
| PickerChange (files : list File).

Definition deliver (d : Delivery) (st : State) : Outcome :=
  match d with
  | PointerDrop files => handleDrop files st
  | PickerChange files => handleFileSelect files st
  end.

End ReceiptUpload.

(* ================================================================== *)
(** * Orchestrator, Normalizer and Chat Bridge: [src/App.tsx] *)
(* ================================================================== *)

Module App.
Import JS.

(** ** Exceptions in pure code *)

Definition cbind {A B} (c : completion A) (k : A -> completion B) : completion B :=
  match c with
  | inl e => inl e
  | inr a => k a
  end.

Declare Scope completion_scope.
Delimit Scope completion_scope with completion.
Notation "'let*' x ':=' c 'in' k" := (cbind c (fun x => k))
  (at level 10, x name, c at level 100, k at level 200) : completion_scope.

(** ** State, collaborators and observable events *)

Record User := { id : jsstring; email : jsstring }.

(** The four [useState] cells of [App]. *)
Record AppState := {
  user : option User;
  loading : bool;
  receiptData : option JSValue;      (* [null] or the published record *)
  isAnalyzing : bool
}.

(** The initial values given to [useState]. *)
Definition initial : AppState :=
  {| user := None; loading := true; receiptData := None; isAnalyzing := false |}.

(** The argument of [JSON.stringify], kept unserialized. *)
Inductive Serialized := JSON_stringify (v : JSValue).

(** The argument of [blink.db.receipts.create]. *)
Record ReceiptRow := {
  row_userId : jsstring;
  row_merchant : JSValue;
  row_date : JSValue;
  row_total : JSValue;
  row_subtotal : JSValue;
  row_tax : JSValue;
  row_items : Serialized;
  row_category : JSValue;
  row_imageUrl : jsstring;
  row_createdAt : jsstring
}.

(** The argument of [blink.ai.generateText]: one user message of an
    instruction and an image, or a single prompt. *)
Inductive AiRequest :=
| Messages (instruction : jsstring) (image : jsstring)
| Prompt (prompt : text).

Record ToastMsg := {
  title : jsstring;
  description : text;
  variant : option jsstring
}.

Inductive LogArg := LogExn (e : exn) | LogString (s : jsstring).

Inductive Event :=
| SetIsAnalyzing (b : bool)
| SetReceiptData (v : JSValue)
| StorageUpload (file : File) (path : jsstring) (upsert : bool)
| AiGenerateText (req : AiRequest)
| DbReceiptsCreate (row : ReceiptRow)
| Toast (t : ToastMsg)
| ConsoleError (label : jsstring) (arg : LogArg)
| ConsoleWarn (label : jsstring) (arg : LogArg).

(** The collaborators: each call either resolves to a value or is rejected.
    [clock] is the result of [new Date().toISOString()]. *)
Record Blink := {
  storage_upload : File -> jsstring -> bool -> completion jsstring;
  ai_generateText : AiRequest -> completion jsstring;
  db_receipts_create : ReceiptRow -> completion unit;
  clock : jsstring
}.

(** ** The monad of the asynchronous functions

    A computation reads and writes the application state, records the
    observable events (the most recent first) and ends with a value or an
    exception. *)

Record World := { state : AppState; log : list Event }.

Definition M (A : Type) := World -> completion A * World.

Definition ret {A} (a : A) : M A := fun w => (inr a, w).

Definition bind {A B} (m : M A) (k : A -> M B) : M B :=
  fun w =>
    match m w with
    | (inl e, w') => (inl e, w')
    | (inr a, w') => k a w'
    end.

Definition throw {A} (e : exn) : M A := fun w => (inl e, w).

(** [try { m } catch (e) { h e }] *)
Definition try_catch {A} (m : M A) (h : exn -> M A) : M A :=
  fun w =>
    match m w with
    | (inl e, w') => h e w'
    | (inr a, w') => (inr a, w')
    end.

(** [try { m } finally { f }]: [f] runs on both exits; the completion of [m]
    stands unless [f] throws. *)
Definition try_finally {A} (m : M A) (f : M unit) : M A :=
  fun w =>
    match m w with
    | (r, w') =>
        match f w' with
        | (inl e, w'') => (inl e, w'')
        | (inr _, w'') => (r, w'')
        end
    end.

Definition lift {A} (c : completion A) : M A := fun w => (c, w).

Definition emit (ev : Event) : M unit :=
  fun w => (inr tt, {| state := state w; log := ev :: log w |}).

Definition read : M AppState := fun w => (inr (state w), w).

Definition write (st : AppState) : M unit :=
  fun w => (inr tt, {| state := st; log := log w |}).

Declare Scope M_scope.
Delimit Scope M_scope with M.
Notation "x <- m ;; k" := (bind m (fun x => k))
  (at level 100, m at next level, right associativity) : M_scope.
Notation "m ;; k" := (bind m (fun _ => k))
  (at level 100, right associativity) : M_scope.

Local Open Scope M_scope.

Definition with_analyzing (st : AppState) (b : bool) : AppState :=
  {| user := user st; loading := loading st;
     receiptData := receiptData st; isAnalyzing := b |}.

Definition with_record (st : AppState) (v : JSValue) : AppState :=
  {| user := user st; loading := loading st;
     receiptData := Some v; isAnalyzing := isAnalyzing st |}.

Definition setIsAnalyzing (b : bool) : M unit :=
  st <- read ;;
  write (with_analyzing st b) ;;
  emit (SetIsAnalyzing b).

Definition setReceiptData (v : JSValue) : M unit :=
  st <- read ;;
  write (with_record st v) ;;
  emit (SetReceiptData v).

Definition toast (t : ToastMsg) : M unit := emit (Toast t).
Definition console_error (label : string) (arg : LogArg) : M unit :=
  emit (ConsoleError (lit label) arg).
Definition console_warn (label : string) (arg : LogArg) : M unit :=
  emit (ConsoleWarn (lit label) arg).

(** [await c]: the call is recorded, then its outcome is delivered; a
    rejection is thrown at the [await]. *)
Definition await {A} (ev : Event) (outcome : completion A) : M A :=
  emit ev ;; lift outcome.

(** ** The instruction sent with the image *)

Definition nl : jsstring := [10].

Definition instruction : jsstring :=
  lit "Analyze this receipt image and extract the following information. Return ONLY valid JSON without any markdown formatting, code blocks, or additional text:"
  ++ nl ++ nl
  ++ lit "{" ++ nl
  ++ lit "  " ++ quoted "merchant" ++ lit ": " ++ quoted "store name" ++ lit "," ++ nl
  ++ lit "  " ++ quoted "date" ++ lit ": " ++ quoted "date in MM/DD/YYYY format" ++ lit "," ++ nl
  ++ lit "  " ++ quoted "total" ++ lit ": number," ++ nl
  ++ lit "  " ++ quoted "subtotal" ++ lit ": number (if available)," ++ nl
  ++ lit "  " ++ quoted "tax" ++ lit ": number (if available)," ++ nl
  ++ lit "  " ++ quoted "items" ++ lit ": [" ++ nl
  ++ lit "    {" ++ nl
  ++ lit "      " ++ quoted "name" ++ lit ": " ++ quoted "item name" ++ lit "," ++ nl
  ++ lit "      " ++ quoted "price" ++ lit ": number," ++ nl
  ++ lit "      " ++ quoted "quantity" ++ lit ": number (if available)" ++ nl
  ++ lit "    }" ++ nl
  ++ lit "  ]," ++ nl
  ++ lit "  " ++ quoted "category" ++ lit ": "
  ++ quoted "category like 'Grocery', 'Restaurant', 'Gas', etc." ++ nl
  ++ lit "}" ++ nl ++ nl
  ++ lit "IMPORTANT: Return only the JSON object, no markdown code blocks, no explanations, no additional text.".

(** ** Response Normalizer (lines 193-208 of [analyzeReceipt]) *)

(** The cleaned text: [text.trim()], then the removal of a [```json] fence
    or else of a generic fence. *)
Definition strip_fences (cleanedText : jsstring) : jsstring :=
  if startsWith cleanedText (lit "```json") then
    replace_close (replace_open (lit "```json") cleanedText)
  else if startsWith cleanedText (lit "```") then
    replace_close (replace_open (lit "```") cleanedText)
  else cleanedText.

Definition cleaned (text : jsstring) : jsstring := strip_fences (trim text).

Definition JSON_parse (s : jsstring) : completion JSValue :=
  match JSON.parse s with
  | Some v => inr v
  | None => inl SyntaxError
  end.

Local Open Scope completion_scope.

(** [!parsedData.merchant || !parsedData.total || !parsedData.items] *)
Definition missing_required (parsedData : JSValue) : completion bool :=
  let* merchant := Get parsedData (lit "merchant") in
  if negb (ToBoolean merchant) then inr true
  else
    let* total := Get parsedData (lit "total") in
    if negb (ToBoolean total) then inr true
    else
      let* items := Get parsedData (lit "items") in
      inr (negb (ToBoolean items)).

Definition missing_fields : exn :=
  Error (lit "Missing required fields in AI response").

(** Lines 205-208 as a function: the parsed value itself, or the error
    thrown. *)
Definition validate (parsedData : JSValue) : completion JSValue :=
  let* missing := missing_required parsedData in
  if missing then inl missing_fields else inr parsedData.

(** The read [v.k] gives a truthy value. *)
Definition truthy_field (v : JSValue) (k : string) : Prop :=
  exists x, Get v (lit k) = inr x /\ ToBoolean x = true.

(** The Normalizer: from the raw text of the AI to the validated value. *)
Definition normalize (text : jsstring) : completion JSValue :=
  let* parsedData := JSON_parse (cleaned text) in
  validate parsedData.

(** ** Extraction Orchestrator *)

(** The argument object of [blink.db.receipts.create], evaluated field by
    field in source order. *)
Definition receipt_row (u : option User) (parsedData : JSValue)
  (publicUrl now : jsstring) : completion ReceiptRow :=
  let* userId := match u with Some x => inr (id x) | None => inl TypeError end in
  let* merchant := Get parsedData (lit "merchant") in
  let* date := Get parsedData (lit "date") in
  let* total := Get parsedData (lit "total") in
  let* subtotal := Get parsedData (lit "subtotal") in
  let* tax := Get parsedData (lit "tax") in
  let* items := Get parsedData (lit "items") in
  let* category := Get parsedData (lit "category") in
  inr {| row_userId := userId;
         row_merchant := merchant;
         row_date := date;
         row_total := total;
         row_subtotal := or_else subtotal (JNumber zero);
         row_tax := or_else tax (JNumber zero);
         row_items := JSON_stringify items;
         row_category := or_else category (JString (lit "Other"));
         row_imageUrl := publicUrl;
         row_createdAt := now |}.

(** [`Found ${parsedData.items.length} items from ${parsedData.merchant}`] *)
Definition success_description (parsedData : JSValue) : completion text :=
  let* items := Get parsedData (lit "items") in
  let* len := Get items (lit "length") in
  let* count := ToString len in
  let* merchant := Get parsedData (lit "merchant") in
  let* name := ToString merchant in
  inr ([Chars (lit "Found ")] ++ count ++ [Chars (lit " items from ")] ++ name).

Definition success_toast (d : text) : ToastMsg :=
  {| title := lit "Receipt analyzed successfully!";
     description := d;
     variant := None |}.

Definition parse_failure_toast : ToastMsg :=
  {| title := lit "Analysis failed";
     description := [Chars (lit "Could not parse the receipt data. Please try again.")];
     variant := Some (lit "destructive") |}.

Definition analysis_failure_toast : ToastMsg :=
  {| title := lit "Analysis failed";
     description := [Chars (lit "Failed to analyze the receipt. Please try again.")];
     variant := Some (lit "destructive") |}.

Local Close Scope completion_scope.

(** [`receipts/${file.name}`] *)
Definition upload_path (file : File) : jsstring := lit "receipts/" ++ file_name file.

Section WithCollaborators.

Variable blink : Blink.

(** [cleanedText] is assigned inside the inner [try], before anything there
    can throw, so the handler of the inner [catch] logs the text after
    fence-stripping. *)
Definition analyzeReceipt (file : File) : M unit :=
  setIsAnalyzing true ;;
  try_finally
    (try_catch
       (let path := upload_path file in
        publicUrl <- await (StorageUpload file path true)
                           (storage_upload blink file path true) ;;
        let request := Messages instruction publicUrl in
        text <- await (AiGenerateText request) (ai_generateText blink request) ;;
        let cleanedText := cleaned text in
        try_catch
          (parsedData <- lift (JSON_parse cleanedText) ;;
           missing <- lift (missing_required parsedData) ;;
           (if missing then throw missing_fields else ret tt) ;;
           setReceiptData parsedData ;;
           try_catch
             (st <- read ;;
              row <- lift (receipt_row (user st) parsedData publicUrl (clock blink)) ;;
              await (DbReceiptsCreate row) (db_receipts_create blink row))
             (fun dbError =>
                console_warn "Failed to store receipt in database:" (LogExn dbError)) ;;
           d <- lift (success_description parsedData) ;;
           toast (success_toast d))
          (fun parseError =>
             console_error "Failed to parse AI response:" (LogExn parseError) ;;
             console_error "Raw AI response:" (LogString text) ;;
             console_error "Cleaned text:" (LogString cleanedText) ;;
             toast parse_failure_toast))
       (fun error =>
          console_error "Receipt analysis failed:" (LogExn error) ;;
          toast analysis_failure_toast))
    (setIsAnalyzing false).

(** ** Conversational Q&A Bridge *)

(** [items.map(item => `${item.name} - $${item.price}`)]: [map] exists only
    on arrays; on any other value of [JSON.parse] the call throws. *)
Definition item_line (item : JSValue) : completion text :=
  (let* name := Get item (lit "name") in
   let* n := ToString name in
   let* price := Get item (lit "price") in
   let* p := ToString price in
   inr (n ++ [Chars (lit " - $")] ++ p))%completion.

Fixpoint map_items (xs : list JSValue) : completion (list text) :=
  match xs with
  | [] => inr []
  | x :: r =>
      (let* l := item_line x in
       let* ls := map_items r in
       inr (l :: ls))%completion
  end.

(** [lines.join(', ')] *)
Fixpoint join (sep : text) (lines : list text) : text :=
  match lines with
  | [] => []
  | [l] => l
  | l :: r => l ++ sep ++ join sep r
  end.

Definition items_summary (items : JSValue) : completion text :=
  match items with
  | JArray xs =>
      (let* ls := map_items xs in inr (join [Chars (lit ", ")] ls))%completion
  | _ => inl TypeError
  end.

Definition indent : jsstring := lit "        ".

Definition chat_prompt (data : JSValue) (message : jsstring) : completion text :=
  (let* merchant := Get data (lit "merchant") in
   let* m := ToString merchant in
   let* date := Get data (lit "date") in
   let* d := ToString date in
   let* total := Get data (lit "total") in
   let* t := ToString total in
   let* items := Get data (lit "items") in
   let* i := items_summary items in
   let* category := Get data (lit "category") in
   let* c := ToString category in
   inr ([Chars (lit "You are an AI assistant helping users understand their receipt data. "
                ++ nl ++ indent ++ nl
                ++ indent ++ lit "Here is the receipt data:" ++ nl
                ++ indent ++ lit "Merchant: ")] ++ m
        ++ [Chars (nl ++ indent ++ lit "Date: ")] ++ d
        ++ [Chars (nl ++ indent ++ lit "Total: $")] ++ t
        ++ [Chars (nl ++ indent ++ lit "Items: ")] ++ i
        ++ [Chars (nl ++ indent ++ lit "Category: ")] ++ c
        ++ [Chars (nl ++ indent ++ nl
                   ++ indent ++ lit "User question: " ++ message ++ nl
                   ++ indent ++ nl
                   ++ indent ++ lit "Please provide a helpful response about their receipt, spending patterns, or answer their specific question. Be conversational and helpful.")]))%completion.

Definition upload_first : jsstring :=
  lit "Please upload a receipt first to start chatting about it.".

Definition chat_apology : jsstring :=
  lit "Sorry, I encountered an error processing your message. Please try again.".

(** [!receiptData] decides between the fixed instruction and the call. *)
Definition handleChatMessage (message : jsstring) : M jsstring :=
  st <- read ;;
  match receiptData st with
  | None => ret upload_first
  | Some data =>
      if negb (ToBoolean data) then ret upload_first
      else
        try_catch
          (prompt <- lift (chat_prompt data message) ;;
           text <- await (AiGenerateText (Prompt prompt))
                         (ai_generateText blink (Prompt prompt)) ;;
           ret text)
          (fun error =>
             console_error "Chat message failed:" (LogExn error) ;;
             ret chat_apology)
  end.

End WithCollaborators.

(** A run from an application state: how it ends, the state it leaves and
    the events it produced, in the order they happened. *)
Record Outcome (A : Type) := {
  result : completion A;
  final : AppState;
  events : list Event
}.
Arguments result {A}.
Arguments final {A}.
Arguments events {A}.

Definition run {A} (m : M A) (st : AppState) : Outcome A :=
  match m {| state := st; log := [] |} with
  | (r, w) => {| result := r; final := state w; events := rev (log w) |}
  end.

(** The events of the best-effort persistence (lines 213-229) and of the
    notification that follows it (lines 231-243), as the run produces
    them. *)
Definition store_failed : jsstring := lit "Failed to store receipt in database:".

Definition persistence_events (blink : Blink) (u : option User)
  (parsedData : JSValue) (publicUrl : jsstring) : list Event :=
  match receipt_row u parsedData publicUrl (clock blink) with
  | inl e => [ConsoleWarn store_failed (LogExn e)]
  | inr row =>
      DbReceiptsCreate row ::
      match db_receipts_create blink row with
      | inl e => [ConsoleWarn store_failed (LogExn e)]
      | inr _ => []
      end
  end.

Definition parse_failure_events (e : exn) (text : jsstring) : list Event :=
  [ConsoleError (lit "Failed to parse AI response:") (LogExn e);
   ConsoleError (lit "Raw AI response:") (LogString text);
   ConsoleError (lit "Cleaned text:") (LogString (cleaned text));
   Toast parse_failure_toast].

Definition analysis_failure_events (e : exn) : list Event :=
  [ConsoleError (lit "Receipt analysis failed:") (LogExn e);
   Toast analysis_failure_toast].

Definition notification_events (parsedData : JSValue) (text : jsstring) : list Event :=
  match success_description parsedData with
  | inr d => [Toast (success_toast d)]
  | inl e => parse_failure_events e text
  end.

(** ** Order of events

    [precedes A B tr]: every event of [tr] that satisfies [B] comes after an
    event that satisfies [A]. *)
Definition precedes (A B : Event -> bool) (tr : list Event) : Prop :=
  forall pre b post,
    tr = pre ++ b :: post -> B b = true -> exists a, In a pre /\ A a = true.

(** The same, as a check along the list: [seen] tells whether an event
    satisfying [A] has been met. *)
Fixpoint ordered (A B : Event -> bool) (seen : bool) (tr : list Event) : bool :=
  match tr with
  | [] => true
  | x :: r => (seen || negb (B x)) && ordered A B (seen || A x) r
  end.

Definition is_upload (ev : Event) : bool :=
  match ev with StorageUpload _ _ _ => true | _ => false end.
Definition is_completion (ev : Event) : bool :=
  match ev with AiGenerateText _ => true | _ => false end.
Definition is_publication (ev : Event) : bool :=
  match ev with SetReceiptData _ => true | _ => false end.
Definition is_flag (ev : Event) : bool :=
  match ev with SetIsAnalyzing _ => true | _ => false end.

End App.

(* ================================================================== *)
(** * Renderer: [src/components/ReceiptAnalysis.tsx] *)
(* ================================================================== *)

Module ReceiptAnalysis.
Import JS.

(** The interfaces of the component. *)
Record ReceiptItem := {
  name : jsstring;
  price : number;
  quantity : option number
}.

Record ReceiptData := {
  merchant : jsstring;
  date : jsstring;
  total : number;
  subtotal : option number;
  tax : option number;
  items : list ReceiptItem;
  category : option jsstring
}.

(** The rendered tree: elements by tag or component name with their
    children, and text. The [className] attributes, which only carry
    styling, and the [key] of the item rows are left out. *)
#[warnings="-register-all"]
Inductive VNode :=
| Element (tag : string) (children : list VNode)
| Text (t : text).

Definition str (s : string) : VNode := Text [Chars (lit s)].

(** [$] followed by [{x.toFixed(2)}] *)
Definition money (x : number) : VNode := Text [Chars (lit "$"); ToFixed x 2].

(** The child [{x && e}] for an optional number [x]: nothing when [x] is
    [undefined]; the number itself, which React renders as text, when it is
    [0] or [NaN]; the element [e] otherwise. *)
Definition and_number (x : option number) (e : number -> VNode) : list VNode :=
  match x with
  | None => []
  | Some n => if number_truthy n then [e n] else [Text [NumberToString n]]
  end.

(** The child [{s && e}] for an optional string [s]: nothing when [s] is
    [undefined] or empty, the element [e] otherwise. *)
Definition and_string (s : option jsstring) (e : jsstring -> VNode) : list VNode :=
  match s with
  | None | Some [] => []
  | Some c => [e c]
  end.

Definition skeleton : VNode :=
  Element "Card"
    [Element "CardHeader"
       [Element "CardTitle" [Element "Receipt" []; Element "span" [str "Analyzing Receipt..."]]];
     Element "CardContent"
       [Element "div"
          [Element "div"
             [Element "div" []; Element "div" [];
              Element "div" [Element "div" []; Element "div" []; Element "div" []]]]]].

Definition empty_state : VNode :=
  Element "Card"
    [Element "CardContent"
       [Element "div"
          [Element "Receipt" []; Element "p" [str "Upload a receipt to see analysis"]]]].

Definition summary_tile (icon label : string) (value : VNode) : VNode :=
  Element "div"
    [Element icon [];
     Element "div" [Element "p" [str label]; Element "p" [value]]].

Definition summary_cards (data : ReceiptData) : VNode :=
  Element "div"
    [summary_tile "Store" "Merchant" (Text [Chars (merchant data)]);
     summary_tile "Calendar" "Date" (Text [Chars (date data)]);
     summary_tile "DollarSign" "Total" (money (total data))].

Definition category_badge (data : ReceiptData) : list VNode :=
  and_string (category data)
    (fun c => Element "div" [Element "Badge" [Text [Chars c]]]).

Definition item_row (item : ReceiptItem) : VNode :=
  Element "div"
    [Element "div"
       (Element "span" [Text [Chars (name item)]]
        :: and_number (quantity item)
             (fun q =>
                Element "span"
                  [Text [Chars (lit "(x"); NumberToString q; Chars (lit ")")]]));
     Element "span" [money (price item)]].

Definition items_list (data : ReceiptData) : VNode :=
  Element "div"
    [Element "h3" [str "Items"];
     Element "div" (List.map item_row (items data))].

Definition amount_line (label : string) (x : number) : VNode :=
  Element "div"
    [Element "span" [str label]; Element "span" [money x]].

Definition subtotal_line (x : number) : VNode := amount_line "Subtotal" x.
Definition tax_line (x : number) : VNode := amount_line "Tax" x.

Definition total_line (data : ReceiptData) : VNode :=
  Element "div" [Element "span" [str "Total"]; Element "span" [money (total data)]].

Definition separator : VNode := Element "Separator" [].

(** The children of the totals breakdown (lines 136-154). *)
Definition totals_breakdown (data : ReceiptData) : list VNode :=
  and_number (subtotal data) subtotal_line
  ++ and_number (tax data) tax_line
  ++ [separator; total_line data].

Definition populated (data : ReceiptData) : VNode :=
  Element "Card"
    [Element "CardHeader"
       [Element "CardTitle" [Element "Receipt" []; Element "span" [str "Receipt Analysis"]]];
     Element "CardContent"
       ([summary_cards data]
        ++ category_badge data
        ++ [items_list data;
            Element "div" [Element "div" (totals_breakdown data)]])].

Definition ReceiptAnalysis (data : option ReceiptData) (isLoading : bool) : VNode :=
  if isLoading then skeleton
  else
    match data with
    | None => empty_state
    | Some d => populated d
    end.

End ReceiptAnalysis.

(* ================================================================== *)
(** * Concrete inputs: the scenarios of the specification *)
(* ================================================================== *)

Module Scenario.
Import JS App.

Definition receipt_jpg : File :=
  {| file_name := lit "a.jpg"; file_type := lit "image/jpeg" |}.

Definition report_pdf : File :=
  {| file_name := lit "report.pdf"; file_type := lit "application/pdf" |}.

Definition url : jsstring := lit "https://x/receipts/a.jpg".

(** A member [k:v] of an object text, and the object text of a list of
    members. *)
Definition member (k : string) (v : jsstring) : jsstring := quoted k ++ lit ":" ++ v.

Fixpoint members (ms : list jsstring) : jsstring :=
  match ms with
  | [] => []
  | [m] => m
  | m :: r => m ++ lit "," ++ members r
  end.

Definition object (ms : list jsstring) : jsstring := lit "{" ++ members ms ++ lit "}".
Definition array (xs : list jsstring) : jsstring := lit "[" ++ members xs ++ lit "]".

(** Scenario A: the reply of the completion, in a [```json] fence. *)
Definition corner_store : jsstring :=
  object [member "merchant" (quoted "Corner Store");
          member "date" (quoted "01/02/2024");
          member "total" (lit "12.5");
          member "items"
            (array [object [member "name" (quoted "Milk"); member "price" (lit "3.5")];
                    object [member "name" (quoted "Bread"); member "price" (lit "9.0")]])].

Definition corner_store_reply : jsstring :=
  lit "```json" ++ nl ++ corner_store ++ nl ++ lit "```".

(** Scenario B: a reply without [total] and [items]. *)
Definition shop_only : jsstring := object [member "merchant" (quoted "Shop")].

(** All three keys, with a total of zero. *)
Definition free_lunch : jsstring :=
  object [member "merchant" (quoted "Shop");
          member "total" (lit "0");
          member "items" (lit "[]")].

(** A reply that passes validation with a merchant that is an object with
    an own [toString]. *)
Definition odd_merchant : jsstring :=
  object [member "merchant" (object [member "toString" (lit "1")]);
          member "total" (lit "1");
          member "items" (lit "[]")].

Definition collaborators (upload reply : completion jsstring)
  (create : completion unit) : Blink :=
  {| storage_upload := fun _ _ _ => upload;
     ai_generateText := fun _ => reply;
     db_receipts_create := fun _ => create;
     clock := lit "2024-01-02T10:00:00.000Z" |}.

Definition db_down : exn := Rejected (lit "database unavailable").
Definition storage_down : exn := Rejected (lit "storage unavailable").

Definition signed_in : AppState :=
  {| user := Some {| id := lit "user-1"; email := lit "user@example.com" |};
     loading := false;
     receiptData := None;
     isAnalyzing := false |}.

Definition idle : ReceiptUpload.State :=
  {| ReceiptUpload.dragActive := false; ReceiptUpload.selectedFile := None |}.

Definition one : number := S754_finite false 4503599627370496 (-52).

(** A receipt with a subtotal and no tax collected. *)
Definition tax_free : ReceiptAnalysis.ReceiptData :=
  {| ReceiptAnalysis.merchant := lit "Corner Store";
     ReceiptAnalysis.date := lit "01/02/2024";
     ReceiptAnalysis.total := one;
     ReceiptAnalysis.subtotal := Some one;
     ReceiptAnalysis.tax := Some zero;
     ReceiptAnalysis.items := [];
     ReceiptAnalysis.category := None |}.

End Scenario.

(* ================================================================== *)
(** * The view of File Intake: the JSX of [ReceiptUpload] (lines 51-110) *)
(* ================================================================== *)

Module ReceiptUploadView.
Import JS ReceiptUpload.

(** The callbacks of the component that the view attaches. *)
Inductive Callback := CbHandleDrag | CbHandleDrop | CbHandleFileSelect | CbClearFile.

Inductive Attribute :=
| className (c : jsstring)
| onDragEnter (h : Callback)
| onDragLeave (h : Callback)
| onDragOver (h : Callback)
| onDrop (h : Callback)
| onChange (h : Callback)
| onClick (h : Callback)
| input_type (s : jsstring)
| accept (s : jsstring)
| disabled (b : bool)
| variant (s : jsstring)
| size (s : jsstring).

#[warnings="-register-all"]
Inductive View :=
| El (tag : string) (props : list Attribute) (children : list View)
| Txt (s : jsstring).

(** The template literal of the drop zone's [className]. *)
Definition zone_class (dragActive isAnalyzing : bool) : jsstring :=
  lit "relative border-2 border-dashed rounded-lg p-8 text-center transition-colors "
  ++ (if dragActive then lit "border-blue-500 bg-blue-50"
      else lit "border-gray-300 hover:border-gray-400")
  ++ lit " "
  ++ (if isAnalyzing then lit "opacity-50 pointer-events-none" else []).

(** The child [{b && e}] for a boolean [b]. *)
Definition and_bool (b : bool) (e : View) : list View := if b then [e] else [].

Definition selected_view (file : File) (isAnalyzing : bool) : View :=
  El "div" [className (lit "space-y-4")]
    (El "div" [className (lit "flex items-center justify-center space-x-2")]
       ([El "FileImage" [className (lit "h-8 w-8 text-green-500")] [];
         El "span" [className (lit "text-sm font-medium text-gray-700")]
           [Txt (file_name file)]]
        ++ and_bool (negb isAnalyzing)
             (El "Button"
                [variant (lit "ghost"); size (lit "sm"); onClick CbClearFile;
                 className (lit "h-6 w-6 p-0")]
                [El "X" [className (lit "h-4 w-4")] []]))
     :: and_bool isAnalyzing
          (El "div" [className (lit "text-sm text-blue-600")]
             [Txt (lit "Analyzing receipt...")])).

Definition prompt_view (isAnalyzing : bool) : View :=
  El "div" [className (lit "space-y-4")]
    [El "Upload" [className (lit "mx-auto h-12 w-12 text-gray-400")] [];
     El "div" []
       [El "p" [className (lit "text-lg font-medium text-gray-900")]
          [Txt (lit "Upload a receipt image")];
        El "p" [className (lit "text-sm text-gray-500 mt-1")]
          [Txt (lit "Drag and drop or click to select")]];
     El "input"
       [input_type (lit "file"); accept (lit "image/*"); onChange CbHandleFileSelect;
        className (lit "absolute inset-0 w-full h-full opacity-0 cursor-pointer");
        disabled isAnalyzing]
       []].

(** The tree returned by the component, for its state and its [isAnalyzing]
    property. *)
Definition ReceiptUpload (st : State) (isAnalyzing : bool) : View :=
  El "Card" [className (lit "p-8")]
    [El "div"
       [className (zone_class (dragActive st) isAnalyzing);
        onDragEnter CbHandleDrag; onDragLeave CbHandleDrag;
        onDragOver CbHandleDrag; onDrop CbHandleDrop]
       [match selectedFile st with
        | Some file => selected_view file isAnalyzing
        | None => prompt_view isAnalyzing
        end]].

(** ** Looking into a tree *)

(** A node and all the nodes below it, in document order. *)
Fixpoint nodes (v : View) : list View :=
  v :: match v with
       | El _ _ children => flat_map nodes children
       | Txt _ => []
       end.

(** The button that calls [clearFile]. *)
Definition is_clear_button (v : View) : bool :=
  match v with
  | El tag props _ =>
      String.eqb tag "Button"
      && existsb (fun a => match a with onClick CbClearFile => true | _ => false end) props
  | Txt _ => false
  end.

(** The file input, with the value of its [disabled] property. *)
Definition file_input_disabled (v : View) : option bool :=
  match v with
  | El tag props _ =>
      if String.eqb tag "input" then
        Some (existsb (fun a => match a with disabled true => true | _ => false end) props)
      else None
  | Txt _ => None
  end.

Definition file_inputs (v : View) : list bool :=
  flat_map (fun n => match file_input_disabled n with Some b => [b] | None => [] end)
           (nodes v).

(** [s.includes(sub)] *)
Fixpoint includes (s sub : jsstring) : bool :=
  startsWith s sub || match s with [] => false | _ :: r => includes r sub end.

(** The [className] of the drop zone, the element that carries [onDrop]. *)
Definition drop_zone_class (v : View) : list jsstring :=
  flat_map
    (fun n =>
       match n with
       | El _ props _ =>
           if existsb (fun a => match a with onDrop _ => true | _ => false end) props
           then flat_map (fun a => match a with className c => [c] | _ => [] end) props
           else []
       | Txt _ => []
       end)
    (nodes v).

End ReceiptUploadView.

(* ================================================================== *)
(** * The shell of [App]: authentication, screens and wiring *)
(* ================================================================== *)

Module AppShell.
Import JS App.

(** The callback given to [blink.auth.onAuthStateChanged] (lines 141-144):
    [setUser(state.user); setLoading(state.isLoading)]. *)
Definition onAuthStateChanged (u : option User) (isLoading : bool)
  (st : AppState) : AppState :=
  {| user := u; loading := isLoading;
     receiptData := receiptData st; isAnalyzing := isAnalyzing st |}.

(** What [App] returns (lines 285-354): the loading screen, the sign-in
    screen, or the main screen, given by the e-mail shown in the header and
    the properties passed to [ReceiptUpload], [ReceiptAnalysis] and
    [ChatInterface]. Layout elements are left out. *)
Inductive Screen :=
| LoadingScreen
| SignInScreen
| MainScreen (welcome : jsstring)
             (upload_isAnalyzing : bool)
             (analysis_data : option JSValue) (analysis_isLoading : bool)
             (chat_receiptData : option JSValue).

Definition render (st : AppState) : Screen :=
  if loading st then LoadingScreen
  else
    match user st with
    | None => SignInScreen
    | Some u =>
        MainScreen (email u) (isAnalyzing st)
                   (receiptData st) (isAnalyzing st) (receiptData st)
    end.

(** [onUpload={analyzeReceipt}] (line 340): the extraction runs once for
    each file File Intake forwards. *)
Fixpoint onUpload_all (blink : Blink) (files : list File) : M unit :=
  match files with
  | [] => ret tt
  | file :: rest => bind (analyzeReceipt blink file) (fun _ => onUpload_all blink rest)
  end.

(** A delivery to File Intake, followed by the extractions it starts. *)
Definition intake (blink : Blink) (d : ReceiptUpload.Delivery)
  (ui : ReceiptUpload.State) (st : AppState) : ReceiptUpload.State * Outcome unit :=
  match ReceiptUpload.deliver d ui with
  | (ui', files) => (ui', run (onUpload_all blink files) st)
  end.

End AppShell.

(* ================================================================== *)
(** * Observations on runs, records and intake sessions *)
(* ================================================================== *)

Module Observe.
Import JS App.

Definition is_toast (ev : Event) : bool :=
  match ev with Toast _ => true | _ => false end.
Definition is_create (ev : Event) : bool :=
  match ev with DbReceiptsCreate _ => true | _ => false end.
Definition is_warning (ev : Event) : bool :=
  match ev with ConsoleWarn _ _ => true | _ => false end.
Definition is_error_log (ev : Event) : bool :=
  match ev with ConsoleError _ _ => true | _ => false end.

Definition count (p : Event -> bool) (tr : list Event) : nat := length (filter p tr).

(** A record as the Normalizer lets it through: an object whose three
    required fields are truthy. *)
Definition valid_record (v : JSValue) : Prop :=
  (exists props, v = JObject props)
  /\ truthy_field v "merchant" /\ truthy_field v "total" /\ truthy_field v "items".

Definition store_ok (st : AppState) : Prop :=
  match receiptData st with
  | None => True
  | Some v => valid_record v
  end.

(** The first character of a JSON value: a brace, a bracket, a quotation
    mark, a minus sign, a digit, or the first letter of [true], [false] and
    [null]. *)
Definition value_start (c : char16) : bool :=
  (c =? 123) || (c =? 91) || (c =? 34) || (c =? 45) || JSON.is_digit c
  || (c =? 116) || (c =? 102) || (c =? 110).

(** The events of File Intake that do not go through the file picker. *)
Inductive PointerEvent :=
| Drag (type : ReceiptUpload.DragType)
| Drop (files : list File)
| Clear.

Definition pointer_step (ev : PointerEvent) (st : ReceiptUpload.State)
  : ReceiptUpload.Outcome :=
  match ev with
  | Drag type => ReceiptUpload.handleDrag type st
  | Drop files => ReceiptUpload.handleDrop files st
  | Clear => (ReceiptUpload.clearFile st, [])
  end.

(** A session: the state after the events and all the files forwarded. *)
Fixpoint pointer_session (evs : list PointerEvent) (st : ReceiptUpload.State)
  : ReceiptUpload.Outcome :=
  match evs with
  | [] => (st, [])
  | ev :: rest =>
      match pointer_step ev st with
      | (st1, calls1) =>
          match pointer_session rest st1 with
          | (st2, calls2) => (st2, calls1 ++ calls2)
          end
      end
  end.

(** The files of a delivery. *)
Definition delivered (d : ReceiptUpload.Delivery) : list File :=
  match d with
  | ReceiptUpload.PointerDrop files => files
  | ReceiptUpload.PickerChange files => files
  end.

Definition is_image (file : File) : Prop :=
  startsWith (file_type file) (lit "image/") = true.

Definition shows_image_or_nothing (st : ReceiptUpload.State) : Prop :=
  match ReceiptUpload.selectedFile st with
  | None => True
  | Some file => is_image file
  end.

(** An item of the typed kind the bridge expects: an object with a string
    [name] and a numeric [price]. *)
Definition item_of (x : JSValue) (name : jsstring) (price : number) : Prop :=
  exists props,
    x = JObject props
    /\ lookup (lit "name") props = Some (JString name)
    /\ lookup (lit "price") props = Some (JNumber price).

Definition item_text (line : jsstring * number) : text :=
  [Chars (fst line); Chars (lit " - $"); NumberToString (snd line)].

End Observe.

(* ================================================================== *)
(** * Further concrete inputs *)
(* ================================================================== *)

Module MoreScenarios.
Import JS App Scenario.

Definition ai_down : exn := Rejected (lit "completion unavailable").

(** A receipt without line items. *)
Definition no_items : jsstring :=
  object [member "merchant" (quoted "Shop");
          member "total" (lit "4.5");
          member "items" (lit "[]")].

(** A reply that is a list of receipts. *)
Definition receipt_list : jsstring := array [corner_store].

(** A reply that introduces its fenced JSON with a sentence. *)
Definition chatty_reply : jsstring :=
  lit "Here is the JSON you asked for:" ++ nl ++ corner_store_reply.

(** A reply whose [items] is a sentence, not a list. *)
Definition vague_items : jsstring :=
  object [member "merchant" (quoted "Shop");
          member "total" (lit "1");
          member "items" (quoted "milk and bread")].

Definition corner_store_record : JSValue :=
  match JSON.parse corner_store with Some v => v | None => JNull end.

Definition with_receipt : AppState := with_record signed_in corner_store_record.

Definition dairy_question : jsstring := lit "How much did I spend on dairy?".
Definition dairy_answer : jsstring := lit "You spent $3.50 on dairy.".

Definition other_user : User :=
  {| id := lit "user-2"; email := lit "other@example.com" |}.

(** The numbers 3.5, 9, 12.5 and 2. *)
Definition milk : number := S754_finite false 7881299347898368 (-51).
Definition bread : number := S754_finite false 5066549580791808 (-49).
Definition twelve_fifty : number := S754_finite false 7036874417766400 (-49).
Definition two : number := S754_finite false 4503599627370496 (-51).

Definition two_bottles : ReceiptAnalysis.ReceiptItem :=
  {| ReceiptAnalysis.name := lit "Water";
     ReceiptAnalysis.price := one;
     ReceiptAnalysis.quantity := Some two |}.

Definition groceries : ReceiptAnalysis.ReceiptData :=
  {| ReceiptAnalysis.merchant := lit "Corner Store";
     ReceiptAnalysis.date := lit "01/02/2024";
     ReceiptAnalysis.total := one;
     ReceiptAnalysis.subtotal := None;
     ReceiptAnalysis.tax := None;
     ReceiptAnalysis.items := [two_bottles];
     ReceiptAnalysis.category := Some (lit "Grocery") |}.

End MoreScenarios.

(* ================================================================== *)
(** * What the parser looks at: notions for the facts about [JSON.parse] *)
(* ================================================================== *)

Module Lookahead.
Import JS JSON.

(** The characters the number grammar goes on with. *)
Definition continues_number (c : char16) : bool :=
  is_digit c || (c =? 46) || (c =? 101) || (c =? 69).

(** What the parser can learn from the text after a value: its first
    character, when that character could go on with a number. *)
Definition peek (r : jsstring) : option char16 :=
  match r with
  | c :: _ => if continues_number c then Some c else None
  | [] => None
  end.

(** A non-empty text whose last character is no white space. *)
Definition ends_ok (c : jsstring) : Prop := trimEnd c = c /\ c <> [].

Definition json_spaces (w : jsstring) : Prop :=
  Forall (fun c => is_json_ws c = true) w.

(** The four parts of [parse_number]. *)
Definition sign_part (s : jsstring) : bool * jsstring :=
  match s with
  | c :: r => if c =? 45 then (true, r) else (false, s)
  | [] => (false, s)
  end.

Definition int_part (s1 : jsstring) : option (list N * jsstring) :=
  match s1 with
  | c :: r =>
      if c =? 48 then Some ([0], r)
      else if is_digit c then Some (take_digits s1)
      else None
  | [] => None
  end.

Definition frac_part (s2 : jsstring) : option (list N * jsstring) :=
  match s2 with
  | c :: r =>
      if c =? 46 then
        match take_digits r with
        | ([], _) => None
        | (fds, rest) => Some (fds, rest)
        end
      else Some ([], s2)
  | [] => Some ([], s2)
  end.

(** The digits of an exponent, after its sign. *)
Definition exp_digits (eneg : bool) (r1 : jsstring) : option (Z * jsstring) :=
  match take_digits r1 with
  | ([], _) => None
  | (eds, rest) =>
      let e := Z.of_N (digits_value eds) in
      Some ((if eneg then - e else e)%Z, rest)
  end.

Definition exp_part (s3 : jsstring) : option (Z * jsstring) :=
  match s3 with
  | c :: r =>
      if (c =? 101) || (c =? 69) then
        let '(eneg, r1) :=
          match r with
          | sg :: r' =>
              if sg =? 45 then (true, r')
              else if sg =? 43 then (false, r')
              else (false, r)
          | [] => (false, r)
          end in
        exp_digits eneg r1
      else Some (0%Z, s3)
  | [] => Some (0%Z, s3)
  end.

End Lookahead.

(* ================================================================== *)
(** * Facts about strings and the fence regular expressions *)
(* ================================================================== *)

Import JS.

Lemma str_eqb_eq (a b : jsstring) : str_eqb a b = true <-> a = b.
Proof.
  revert b; induction a as [|x a IH]; intros [|y b]; simpl; split;
    try discriminate; try reflexivity.
  - intros H. apply andb_true_iff in H as [Hx Hab].
    apply N.eqb_eq in Hx. apply IH in Hab. congruence.
  - intros H. injection H as -> ->. rewrite N.eqb_refl. simpl. now apply IH.
Qed.

Lemma trimStart_spaces (ws s : jsstring) :
  spaces ws -> trimStart (ws ++ s) = trimStart s.
Proof.
  induction 1 as [|c ws Hc _ IH]; simpl; [reflexivity|]. now rewrite Hc.
Qed.

Lemma trimStart_all_spaces (ws : jsstring) : spaces ws -> trimStart ws = [].
Proof.
  intros H. rewrite <- (app_nil_r ws). now rewrite trimStart_spaces.
Qed.

Lemma trimStart_nil_spaces (s : jsstring) : trimStart s = [] -> spaces s.
Proof.
  induction s as [|c s IH]; simpl; intros H; [constructor|].
  destruct (is_space c) eqn:Hc; [|discriminate].
  constructor; [exact Hc|apply IH, H].
Qed.

Lemma trimStart_app (s t : jsstring) :
  trimStart s <> [] -> trimStart (s ++ t) = trimStart s ++ t.
Proof.
  induction s as [|c s IH]; simpl; intros H; [congruence|].
  destruct (is_space c); auto.
Qed.

Lemma trimStart_head (s : jsstring) c r :
  trimStart s = c :: r -> is_space c = false.
Proof.
  induction s as [|x s IH]; simpl; [discriminate|].
  destruct (is_space x) eqn:Hx; auto.
  intros H. injection H as -> _. exact Hx.
Qed.

Lemma trimEnd_nonspace (c : char16) (r : jsstring) :
  is_space c = false -> trimEnd (c :: r) = c :: trimEnd r.
Proof.
  intros Hc. simpl. rewrite Hc. now destruct (trimEnd r).
Qed.

Lemma trimEnd_all_spaces (ws : jsstring) : spaces ws -> trimEnd ws = [].
Proof.
  induction 1 as [|c ws Hc _ IH]; simpl; [reflexivity|]. now rewrite IH, Hc.
Qed.

Lemma trimEnd_cons_keep (c : char16) (s : jsstring) :
  trimEnd s <> [] -> trimEnd (c :: s) = c :: trimEnd s.
Proof.
  intros H. simpl. destruct (trimEnd s); congruence.
Qed.

Lemma trimEnd_app_keep (s t : jsstring) :
  trimEnd t <> [] -> trimEnd (s ++ t) = s ++ trimEnd t.
Proof.
  intros H. induction s as [|c s IH]; [reflexivity|].
  rewrite <- app_comm_cons, trimEnd_cons_keep; rewrite IH; [reflexivity|].
  destruct s; simpl; [exact H|discriminate].
Qed.

Lemma trimEnd_spaces (s ws : jsstring) :
  spaces ws -> trimEnd (s ++ ws) = trimEnd s.
Proof.
  intros H. induction s as [|c s IH]; simpl.
  - now apply trimEnd_all_spaces.
  - now rewrite IH.
Qed.

(** A string is its [trimEnd] followed by white space. *)
Lemma trimEnd_split (s : jsstring) :
  exists ws, s = trimEnd s ++ ws /\ spaces ws.
Proof.
  induction s as [|c s (ws & Hs & Hws)].
  - exists []. split; [reflexivity|constructor].
  - simpl. destruct (trimEnd s) as [|x r] eqn:E.
    + simpl in Hs. subst ws. destruct (is_space c) eqn:Hc.
      * exists (c :: s). split; [reflexivity|now constructor].
      * exists s. split; [reflexivity|assumption].
    + exists ws. split; [|assumption]. rewrite Hs at 1. reflexivity.
Qed.

Lemma trimEnd_idem (s : jsstring) : trimEnd (trimEnd s) = trimEnd s.
Proof.
  induction s as [|c s IH]; [reflexivity|].
  simpl. destruct (trimEnd s) as [|x r] eqn:E.
  - destruct (is_space c) eqn:Hc; simpl; [reflexivity|now rewrite Hc].
  - rewrite trimEnd_cons_keep; rewrite IH; [reflexivity|discriminate].
Qed.

Lemma trimEnd_keeps_nonspace (s : jsstring) :
  trimEnd s <> [] -> trimStart s <> [].
Proof.
  intros H E. apply H, trimEnd_all_spaces, trimStart_nil_spaces, E.
Qed.

Lemma trimStart_incl_length (s : jsstring) : (length (trimStart s) <= length s)%nat.
Proof.
  induction s as [|c s IH]; simpl; [lia|]. destruct (is_space c); simpl; lia.
Qed.

Lemma fence_not_space : trimStart fence = fence.
Proof. reflexivity. Qed.

Lemma matches_close_spaces (ws : jsstring) :
  spaces ws -> matches_close (ws ++ fence) = true.
Proof.
  intros H. unfold matches_close. rewrite trimStart_spaces by assumption.
  reflexivity.
Qed.

Lemma matches_close_inside (s ws : jsstring) :
  trimEnd s <> [] -> matches_close (s ++ ws ++ fence) = false.
Proof.
  intros H. unfold matches_close.
  destruct (str_eqb _ fence) eqn:E; [|reflexivity].
  apply str_eqb_eq in E. exfalso.
  apply trimEnd_keeps_nonspace in H.
  rewrite trimStart_app in E by assumption.
  apply (f_equal (@length _)) in E. rewrite !length_app in E.
  destruct (trimStart s); [congruence|]. simpl in E. lia.
Qed.

(** The closing expression removes exactly the final fence and the white
    space before it, when what remains does not end in white space. *)
Lemma replace_close_fenced (core ws : jsstring) :
  trimEnd core = core -> spaces ws ->
  replace_close (core ++ ws ++ fence) = core.
Proof.
  intros Hcore Hws. induction core as [|c core IH].
  - simpl app. pose proof (matches_close_spaces ws Hws) as Hm.
    destruct (ws ++ fence) eqn:E; [reflexivity|].
    simpl. now rewrite Hm.
  - assert (Hne : trimEnd (c :: core) <> []) by (rewrite Hcore; discriminate).
    rewrite <- app_comm_cons. simpl replace_close.
    rewrite app_comm_cons, (matches_close_inside _ ws Hne).
    f_equal. apply IH.
    simpl in Hcore. destruct (trimEnd core) as [|x r] eqn:E.
    + destruct (is_space c); [discriminate|]. now injection Hcore as <-.
    + now injection Hcore.
Qed.

Lemma trim_spaces (w1 t w2 : jsstring) :
  spaces w1 -> spaces w2 -> trim (w1 ++ t ++ w2) = trim t.
Proof.
  intros H1 H2. unfold trim. rewrite trimStart_spaces by assumption.
  destruct (trimStart t) eqn:E.
  - apply trimStart_nil_spaces in E.
    rewrite trimStart_spaces, trimStart_all_spaces by assumption. reflexivity.
  - rewrite trimStart_app by congruence. rewrite E. now apply trimEnd_spaces.
Qed.

(** ** The cleaned text of a fenced or padded response *)

Import App.

Lemma cleaned_padded (w1 t w2 : jsstring) :
  spaces w1 -> spaces w2 -> cleaned (w1 ++ t ++ w2) = cleaned t.
Proof.
  intros H1 H2. unfold cleaned. now rewrite trim_spaces.
Qed.

Lemma trim_fenced (F X : jsstring) :
  trimStart F = F -> F <> [] -> trim (F ++ X ++ fence) = F ++ X ++ fence.
Proof.
  intros HF Hne. unfold trim.
  rewrite trimStart_app by congruence. rewrite HF.
  rewrite !app_assoc. rewrite trimEnd_app_keep; [reflexivity|discriminate].
Qed.

Lemma strip_prefix_app (p s : jsstring) : strip_prefix p (p ++ s) = Some s.
Proof.
  induction p as [|x p IH]; simpl; [now destruct s|]. now rewrite N.eqb_refl.
Qed.

(** A text whose first character after white space is a left brace does not
    go on with the language tag of the fence. *)
Lemma no_language_tag (s r p : jsstring) :
  trimStart s = 123 :: r -> strip_prefix (106 :: p) s = None.
Proof.
  destruct s as [|x s]; [discriminate|].
  cbn [trimStart strip_prefix].
  destruct (106 =? x) eqn:E; [|reflexivity].
  apply N.eqb_eq in E. subst x. discriminate.
Qed.

Lemma replace_close_body (t w2 : jsstring) :
  trimStart t <> [] -> spaces w2 ->
  replace_close (trimStart t ++ w2 ++ fence) = trim t.
Proof.
  intros Hne H2. unfold trim.
  destruct (trimEnd_split (trimStart t)) as (w & Hsplit & Hw).
  rewrite Hsplit at 1. rewrite <- app_assoc, (app_assoc w).
  apply replace_close_fenced; [apply trimEnd_idem|].
  apply Forall_app; split; assumption.
Qed.

Lemma brace_first_trim (t r : jsstring) :
  trimStart t = 123 :: r -> trim t = 123 :: trimEnd r.
Proof.
  intros H. unfold trim. rewrite H. now apply trimEnd_nonspace.
Qed.

Lemma cleaned_bare (t r : jsstring) :
  trimStart t = 123 :: r -> cleaned t = trim t.
Proof.
  intros H. unfold cleaned. now rewrite (brace_first_trim t r H).
Qed.

Lemma cleaned_json_fence (w1 t w2 r : jsstring) :
  spaces w1 -> spaces w2 -> trimStart t = 123 :: r ->
  cleaned (lit "```json" ++ w1 ++ t ++ w2 ++ fence) = trim t.
Proof.
  intros H1 H2 Ht. unfold cleaned.
  rewrite (app_assoc t), (app_assoc w1), trim_fenced by (reflexivity || discriminate).
  rewrite <- (app_assoc w1), <- (app_assoc t).
  unfold strip_fences, startsWith, replace_open.
  rewrite strip_prefix_app.
  rewrite trimStart_spaces, trimStart_app by (assumption || congruence).
  apply replace_close_body; [congruence|assumption].
Qed.

Lemma cleaned_generic_fence (w1 t w2 r : jsstring) :
  spaces w1 -> spaces w2 -> trimStart t = 123 :: r ->
  cleaned (lit "```" ++ w1 ++ t ++ w2 ++ fence) = trim t.
Proof.
  intros H1 H2 Ht. unfold cleaned.
  rewrite (app_assoc t), (app_assoc w1), trim_fenced by (reflexivity || discriminate).
  rewrite <- (app_assoc w1), <- (app_assoc t).
  assert (Hrest : trimStart (w1 ++ t ++ w2 ++ fence) = 123 :: r ++ w2 ++ fence).
  { rewrite trimStart_spaces, trimStart_app by (assumption || congruence).
    now rewrite Ht. }
  unfold strip_fences, startsWith, replace_open.
  change (strip_prefix (lit "```json") (lit "```" ++ w1 ++ t ++ w2 ++ fence))
    with (strip_prefix (lit "json") (w1 ++ t ++ w2 ++ fence)).
  change (lit "json") with (106 :: lit "son").
  rewrite (no_language_tag _ _ _ Hrest).
  rewrite strip_prefix_app.
  rewrite trimStart_spaces, trimStart_app by (assumption || congruence).
  apply replace_close_body; [congruence|assumption].
Qed.

(** ** The first character of an object text *)

Lemma json_ws_is_space (c : char16) : JSON.is_json_ws c = true -> is_space c = true.
Proof.
  unfold JSON.is_json_ws, is_space. intros H.
  repeat (apply orb_true_iff in H as [H|H]);
    apply N.eqb_eq in H; subst c; reflexivity.
Qed.

Lemma skip_ws_trimStart (t r : jsstring) (c : char16) :
  JSON.skip_ws t = c :: r -> is_space c = false -> trimStart t = c :: r.
Proof.
  intros H Hc. induction t as [|x t IH]; simpl in *; [discriminate|].
  destruct (JSON.is_json_ws x) eqn:Hx.
  - rewrite (json_ws_is_space x Hx). auto.
  - injection H as -> ->. now rewrite Hc.
Qed.

Lemma keyword_not_object k v s props rest :
  (forall p, v <> JObject p) -> JSON.keyword k v s <> Some (JObject props, rest).
Proof.
  intros Hv. unfold JSON.keyword. destruct (strip_prefix _ s); [|discriminate].
  intros H. injection H as H _. exact (Hv _ H).
Qed.

Lemma parse_value_object (fuel : nat) (t rest : jsstring) props :
  JSON.parse_value fuel t = Some (JObject props, rest) ->
  exists r, JSON.skip_ws t = 123 :: r.
Proof.
  destruct fuel as [|fuel]; simpl; [discriminate|].
  destruct (JSON.skip_ws t) as [|c r]; [discriminate|].
  destruct (c =? 123) eqn:E123.
  { apply N.eqb_eq in E123. subst c. eauto. }
  intros H. exfalso.
  destruct (c =? 91).
  { destruct (JSON.expect 93 _); [discriminate|].
    destruct (JSON.parse_elements _ _ _) as [[? ?]|]; discriminate. }
  destruct (c =? 34).
  { destruct (JSON.parse_chars r) as [[? ?]|]; discriminate. }
  destruct (c =? 116); [revert H; apply keyword_not_object; discriminate|].
  destruct (c =? 102); [revert H; apply keyword_not_object; discriminate|].
  destruct (c =? 110); [revert H; apply keyword_not_object; discriminate|].
  destruct (JSON.parse_number _) as [[? ?]|]; discriminate.
Qed.

Lemma parse_object_brace (t : jsstring) props :
  JSON.parse t = Some (JObject props) -> exists r, trimStart t = 123 :: r.
Proof.
  unfold JSON.parse.
  destruct (JSON.parse_value _ t) as [[v rest]|] eqn:E; [|discriminate].
  destruct (JSON.skip_ws rest); [|discriminate].
  intros H. injection H as ->.
  destruct (parse_value_object _ _ _ _ E) as [r Hr].
  exists r. now apply skip_ws_trimStart.
Qed.

(* ================================================================== *)
(** * Facts about the parser *)
(* ================================================================== *)

Import JSON.

Lemma skip_ws_length s : (length (skip_ws s) <= length s)%nat.
Proof.
  induction s as [|c s IH]; simpl; [lia|]. destruct (is_json_ws c); simpl; lia.
Qed.

Lemma expect_length c s r : expect c s = Some r -> (length r < length s)%nat.
Proof.
  destruct s as [|x s]; simpl; [discriminate|].
  destruct (x =? c)%N; [|discriminate]. intros H. injection H as ->. lia.
Qed.

Lemma strip_prefix_length p s r : strip_prefix p s = Some r -> (length r <= length s)%nat.
Proof.
  revert s. induction p as [|x p IH]; intros [|y s]; simpl; try discriminate.
  - intros H. injection H as <-. simpl. lia.
  - intros H. injection H as <-. simpl. lia.
  - destruct (x =? y)%N; [|discriminate]. intros H. apply IH in H. lia.
Qed.

Lemma keyword_length k v s r x : keyword k v s = Some (x, r) -> (length r <= length s)%nat.
Proof.
  unfold keyword. destruct (strip_prefix (lit k) s) eqn:E; [|discriminate].
  intros H. injection H as _ <-. now apply strip_prefix_length in E.
Qed.

Lemma cons_fst_some c o cs r :
  cons_fst c o = Some (cs, r) -> exists cs', o = Some (cs', r).
Proof.
  destruct o as [[cs' r']|]; simpl; [|discriminate].
  intros H. injection H as _ <-. eauto.
Qed.

Lemma parse_chars_length s cs r : parse_chars s = Some (cs, r) -> (length r < length s)%nat.
Proof.
  remember (length s) as n eqn:Hn. revert s cs r Hn.
  induction n as [n IH] using lt_wf_ind. intros s cs r Hn.
  destruct s as [|c s]; simpl; [discriminate|].
  destruct (c =? 34)%N.
  { intros H. injection H as _ <-. simpl in Hn. lia. }
  destruct (c =? 92)%N.
  { destruct s as [|e s]; [discriminate|].
    destruct (e =? 117)%N.
    - destruct s as [|h1 [|h2 [|h3 [|h4 s]]]]; try discriminate.
      destruct (hex4 h1 h2 h3 h4); [|discriminate].
      intros H. apply cons_fst_some in H as [cs' H].
      simpl in Hn. apply (IH (length s)) in H; simpl; lia.
    - destruct (escape e); [|discriminate].
      intros H. apply cons_fst_some in H as [cs' H].
      simpl in Hn. apply (IH (length s)) in H; simpl; lia. }
  destruct (c <? 32)%N; [discriminate|].
  intros H. apply cons_fst_some in H as [cs' H].
  simpl in Hn. apply (IH (length s)) in H; simpl; lia.
Qed.

Lemma take_digits_length s ds r : take_digits s = (ds, r) -> (length r <= length s)%nat.
Proof.
  revert ds r. induction s as [|c s IH]; simpl; intros ds r.
  - intros H. injection H as _ <-. simpl. lia.
  - destruct (is_digit c).
    + destruct (take_digits s) as [ds' r'] eqn:E. intros H. injection H as _ <-.
      specialize (IH _ _ eq_refl). lia.
    + intros H. injection H as _ <-. simpl. lia.
Qed.

Lemma parse_number_length s x r : parse_number s = Some (x, r) -> (length r <= length s)%nat.
Proof.
  unfold parse_number.
  set (sign := match s with
               | c :: r0 => if (c =? 45)%N then (true, r0) else (false, s)
               | [] => (false, s)
               end).
  assert (Hsign : (length (snd sign) <= length s)%nat).
  { subst sign. destruct s as [|c r0]; simpl; [lia|]. destruct (c =? 45)%N; simpl; lia. }
  destruct sign as [neg s1]. simpl in Hsign.
  set (ip := match s1 with
             | c :: r0 => if (c =? 48)%N then Some ([0%N], r0)
                          else if is_digit c then Some (take_digits s1) else None
             | [] => None
             end).
  assert (Hip : forall ids s2, ip = Some (ids, s2) -> (length s2 <= length s1)%nat).
  { subst ip. intros ids s2. destruct s1 as [|c r0]; [discriminate|].
    destruct (c =? 48)%N.
    - intros H. injection H as _ <-. simpl. lia.
    - destruct (is_digit c) eqn:Hd; [|discriminate]. intros H. injection H as H.
      exact (take_digits_length (c :: r0) _ _ H). }
  destruct ip as [[ids s2]|]; [|discriminate]. specialize (Hip _ _ eq_refl).
  set (fp := match s2 with
             | c :: r0 => if (c =? 46)%N then
                            match take_digits r0 with
                            | ([], _) => None
                            | (fds, rest) => Some (fds, rest)
                            end
                          else Some ([], s2)
             | [] => Some ([], s2)
             end).
  assert (Hfp : forall fds s3, fp = Some (fds, s3) -> (length s3 <= length s2)%nat).
  { subst fp. intros fds s3. destruct s2 as [|c r0].
    - intros H. injection H as _ <-. simpl. lia.
    - destruct (c =? 46)%N.
      + destruct (take_digits r0) as [[|d ds] rest] eqn:E; [discriminate|].
        intros H. injection H as _ <-. apply take_digits_length in E. simpl. lia.
      + intros H. injection H as _ <-. simpl. lia. }
  destruct fp as [[fds s3]|]; [|discriminate]. specialize (Hfp _ _ eq_refl).
  set (ep := match s3 with
             | c :: r0 => _
             | [] => Some (0%Z, s3)
             end).
  assert (Hep : forall e rest, ep = Some (e, rest) -> (length rest <= length s3)%nat).
  { subst ep. intros e rest. destruct s3 as [|c r0].
    - intros H. injection H as _ <-. simpl. lia.
    - destruct ((c =? 101)%N || (c =? 69)%N).
      + set (sg := match r0 with
                   | sg :: r' => _
                   | [] => (false, r0)
                   end).
        assert (Hsg : (length (snd sg) <= length r0)%nat).
        { subst sg. destruct r0 as [|g r']; simpl; [lia|].
          destruct (g =? 45)%N; simpl; [lia|]. destruct (g =? 43)%N; simpl; lia. }
        destruct sg as [eneg r1]. simpl in Hsg.
        destruct (take_digits r1) as [[|d ds] rest'] eqn:E; [discriminate|].
        intros H. injection H as _ <-. apply take_digits_length in E. simpl. lia.
      + intros H. injection H as _ <-. simpl. lia. }
  destruct ep as [[e rest]|]; [|discriminate]. specialize (Hep _ _ eq_refl).
  intros H. injection H as _ <-. lia.
Qed.

(** What the parser leaves is no longer than what it was given. *)
Lemma parse_rest_length (fuel : nat) :
  (forall s v r, parse_value fuel s = Some (v, r) -> (length r <= length s)%nat)
  /\ (forall s acc ps r, parse_members fuel s acc = Some (ps, r) -> (length r <= length s)%nat)
  /\ (forall s acc xs r, parse_elements fuel s acc = Some (xs, r) -> (length r <= length s)%nat).
Proof.
  induction fuel as [|fuel (IHv & IHm & IHe)]; [repeat split; discriminate|].
  split; [|split].
  - intros s v r. cbn [parse_value].
    pose proof (skip_ws_length s) as Hs.
    destruct (skip_ws s) as [|c r0]; [discriminate|]. simpl in Hs.
    destruct (c =? 123)%N.
    { pose proof (skip_ws_length r0) as Hr0.
      destruct (expect 125 (skip_ws r0)) as [rest|] eqn:E.
      - intros H. injection H as _ <-. apply expect_length in E. lia.
      - destruct (parse_members fuel r0 []) as [[ps rest]|] eqn:Em; [|discriminate].
        intros H. injection H as _ <-. apply IHm in Em. lia. }
    destruct (c =? 91)%N.
    { pose proof (skip_ws_length r0) as Hr0.
      destruct (expect 93 (skip_ws r0)) as [rest|] eqn:E.
      - intros H. injection H as _ <-. apply expect_length in E. lia.
      - destruct (parse_elements fuel r0 []) as [[xs rest]|] eqn:Ee; [|discriminate].
        intros H. injection H as _ <-. apply IHe in Ee. lia. }
    destruct (c =? 34)%N.
    { destruct (parse_chars r0) as [[str rest]|] eqn:E; [|discriminate].
      intros H. injection H as _ <-. apply parse_chars_length in E. lia. }
    destruct (c =? 116)%N; [intros H; apply keyword_length in H; simpl in H; lia|].
    destruct (c =? 102)%N; [intros H; apply keyword_length in H; simpl in H; lia|].
    destruct (c =? 110)%N; [intros H; apply keyword_length in H; simpl in H; lia|].
    destruct (parse_number (c :: r0)) as [[x rest]|] eqn:E; [|discriminate].
    intros H. injection H as _ <-. apply parse_number_length in E. simpl in E. lia.
  - intros s acc ps r. cbn [parse_members].
    pose proof (skip_ws_length s) as Hs.
    destruct (expect 34 (skip_ws s)) as [r0|] eqn:E0; [|discriminate].
    apply expect_length in E0.
    destruct (parse_chars r0) as [[k r1]|] eqn:E1; [|discriminate].
    apply parse_chars_length in E1.
    pose proof (skip_ws_length r1) as Hr1.
    destruct (expect 58 (skip_ws r1)) as [r2|] eqn:E2; [|discriminate].
    apply expect_length in E2.
    destruct (parse_value fuel r2) as [[v r3]|] eqn:E3; [|discriminate].
    apply IHv in E3.
    pose proof (skip_ws_length r3) as Hr3.
    destruct (skip_ws r3) as [|d r4]; [discriminate|]. simpl in Hr3.
    destruct (d =? 44)%N.
    { intros H. apply IHm in H. lia. }
    destruct (d =? 125)%N; [|discriminate].
    intros H. injection H as _ <-. lia.
  - intros s acc xs r. cbn [parse_elements].
    destruct (parse_value fuel s) as [[v r1]|] eqn:E1; [|discriminate].
    apply IHv in E1.
    pose proof (skip_ws_length r1) as Hr1.
    destruct (skip_ws r1) as [|d r2]; [discriminate|]. simpl in Hr1.
    destruct (d =? 44)%N.
    { intros H. apply IHe in H. lia. }
    destruct (d =? 93)%N; [|discriminate].
    intros H. injection H as _ <-. lia.
Qed.

(** A successful parse needs no more fuel than the characters it consumes,
    plus one. *)
Lemma parse_fuel_consumed (fuel : nat) :
  (forall s v r, parse_value fuel s = Some (v, r) ->
     forall fuel', (length s < fuel' + length r)%nat ->
                   parse_value fuel' s = Some (v, r))
  /\ (forall s acc ps r, parse_members fuel s acc = Some (ps, r) ->
        forall fuel', (length s < fuel' + length r)%nat ->
                      parse_members fuel' s acc = Some (ps, r))
  /\ (forall s acc xs r, parse_elements fuel s acc = Some (xs, r) ->
        forall fuel', (length s < fuel' + length r)%nat ->
                      parse_elements fuel' s acc = Some (xs, r)).
Proof.
  induction fuel as [|fuel (IHv & IHm & IHe)]; [repeat split; discriminate|].
  destruct (parse_rest_length fuel) as (Lv & Lm & Le).
  destruct (parse_rest_length (S fuel)) as (Lv' & Lm' & Le').
  split; [|split].
  - intros s v r H [|fuel'] Hlen.
    { apply Lv' in H. lia. }
    revert H. cbn [parse_value].
    pose proof (skip_ws_length s) as Hs.
    destruct (skip_ws s) as [|c r0]; [discriminate|]. simpl in Hs.
    destruct (c =? 123).
    { destruct (expect 125 (skip_ws r0)) as [rest|]; [trivial|].
      destruct (parse_members fuel r0 []) as [[ps rest]|] eqn:Em; [|discriminate].
      intros H. injection H as <- <-.
      rewrite (IHm _ _ _ _ Em fuel') by lia. reflexivity. }
    destruct (c =? 91).
    { destruct (expect 93 (skip_ws r0)) as [rest|]; [trivial|].
      destruct (parse_elements fuel r0 []) as [[xs rest]|] eqn:Ee; [|discriminate].
      intros H. injection H as <- <-.
      rewrite (IHe _ _ _ _ Ee fuel') by lia. reflexivity. }
    trivial.
  - intros s acc ps r H [|fuel'] Hlen.
    { apply Lm' in H. lia. }
    pose proof (Lm' _ _ _ _ H) as Hr.
    revert H. cbn [parse_members].
    pose proof (skip_ws_length s) as Hs.
    destruct (expect 34 (skip_ws s)) as [r0|] eqn:E0; [|discriminate].
    apply expect_length in E0.
    destruct (parse_chars r0) as [[k r1]|] eqn:E1; [|discriminate].
    apply parse_chars_length in E1.
    pose proof (skip_ws_length r1) as Hr1.
    destruct (expect 58 (skip_ws r1)) as [r2|] eqn:E2; [|discriminate].
    apply expect_length in E2.
    destruct (parse_value fuel r2) as [[v r3]|] eqn:E3; [|discriminate].
    pose proof (Lv _ _ _ E3) as Hr3. cbv zeta.
    pose proof (skip_ws_length r3) as Hs3.
    destruct (skip_ws r3) as [|d r4] eqn:E4; [discriminate|]. simpl in Hs3.
    intros H.
    assert (Hr4 : (length r <= length r4)%nat).
    { destruct (d =? 44); [now apply Lm in H|].
      destruct (d =? 125); [|discriminate]. injection H as _ <-. lia. }
    rewrite (IHv _ _ _ E3 fuel') by lia. rewrite E4.
    destruct (d =? 44); [|exact H].
    apply (IHm _ _ _ _ H). lia.
  - intros s acc xs r H [|fuel'] Hlen.
    { apply Le' in H. lia. }
    revert H. cbn [parse_elements].
    destruct (parse_value fuel s) as [[v r1]|] eqn:E1; [|discriminate].
    pose proof (Lv _ _ _ E1) as Hr1.
    pose proof (skip_ws_length r1) as Hs1.
    destruct (skip_ws r1) as [|d r2] eqn:E2; [discriminate|]. simpl in Hs1.
    intros H.
    assert (Hr2 : (length r <= length r2)%nat).
    { destruct (d =? 44); [now apply Le in H|].
      destruct (d =? 93); [|discriminate]. injection H as _ <-. lia. }
    rewrite (IHv _ _ _ E1 fuel') by lia. rewrite E2.
    destruct (d =? 44); [|exact H].
    apply (IHe _ _ _ _ H). lia.
Qed.

(** The fuel of [JSON.parse] is enough: with any larger fuel the parser
    returns the same result, so [None] is always a syntax error. *)
Theorem parse_fuel_adequate (s : jsstring) (fuel : nat) :
  (length s < fuel)%nat -> parse_value fuel s = parse_value (S (length s)) s.
Proof.
  intros H.
  destruct (parse_value fuel s) as [[v r]|] eqn:E1.
  - symmetry. apply (proj1 (parse_fuel_consumed fuel) _ _ _ E1). lia.
  - destruct (parse_value (S (length s)) s) as [[v r]|] eqn:E2; [|reflexivity].
    rewrite (proj1 (parse_fuel_consumed _) _ _ _ E2 fuel) in E1 by lia.
    discriminate.
Qed.

(** ** The parts of a number, as [parse_number] reads them *)

Import Lookahead.

Lemma parse_number_parts (s : jsstring) :
  parse_number s =
    let '(neg, s1) := sign_part s in
    match int_part s1 with
    | None => None
    | Some (ids, s2) =>
        match frac_part s2 with
        | None => None
        | Some (fds, s3) =>
            match exp_part s3 with
            | None => None
            | Some (e, rest) =>
                Some (double_of_decimal neg (digits_value (ids ++ fds))
                        (e - Z.of_nat (length fds))%Z, rest)
            end
        end
    end.
Proof. reflexivity. Qed.

(** ** Texts ending in a character that is no white space *)

Lemma ends_ok_single (x : char16) : is_space x = false -> ends_ok [x].
Proof. intros H. split; [|discriminate]. simpl. now rewrite H. Qed.

Lemma ends_ok_cons (x : char16) (c : jsstring) : ends_ok c -> ends_ok (x :: c).
Proof.
  intros [H Hne]. split; [|discriminate].
  rewrite trimEnd_cons_keep; rewrite H; [reflexivity|assumption].
Qed.

Lemma ends_ok_app (a c : jsstring) : ends_ok c -> ends_ok (a ++ c).
Proof.
  intros H. induction a as [|x a IH]; [exact H|]. now apply ends_ok_cons.
Qed.

Lemma ends_ok_tail (x : char16) (c : jsstring) :
  ends_ok (x :: c) -> is_space x = true -> ends_ok c.
Proof.
  intros [H _] Hx. simpl in H. rewrite Hx in H.
  destruct (trimEnd c) as [|y r] eqn:E; [discriminate|].
  injection H as H. split; [congruence|]. intros ->. discriminate.
Qed.

Lemma ends_ok_skip_ws (c x : jsstring) :
  ends_ok c -> skip_ws (c ++ x) = skip_ws c ++ x /\ skip_ws c <> [].
Proof.
  induction c as [|a c IH]; intros H; [now destruct H|].
  simpl. destruct (is_json_ws a) eqn:Ea.
  - apply IH. apply (ends_ok_tail a); [exact H|]. now apply json_ws_is_space.
  - split; [reflexivity|discriminate].
Qed.

Lemma digit_not_space (x : char16) : is_digit x = true -> is_space x = false.
Proof.
  unfold is_digit. intros H. apply andb_true_iff in H as [H1 H2].
  apply N.leb_le in H1, H2. unfold is_space.
  repeat (apply orb_false_iff; split);
    try (apply N.eqb_neq; lia).
  apply andb_false_iff. left. apply N.leb_gt. lia.
Qed.

Lemma digits_ends_ok (c : jsstring) :
  Forall (fun x => is_digit x = true) c -> c <> [] -> ends_ok c.
Proof.
  induction 1 as [|x c Hx Hc IH]; intros Hne; [congruence|].
  destruct c as [|y c].
  - apply ends_ok_single. now apply digit_not_space.
  - apply ends_ok_cons, IH. discriminate.
Qed.

(** ** White space before a token *)

Lemma skip_ws_split (s : jsstring) :
  exists w, s = w ++ skip_ws s /\ json_spaces w.
Proof.
  induction s as [|c s (w & Hs & Hw)].
  - exists []. split; [reflexivity|constructor].
  - simpl. destruct (is_json_ws c) eqn:E.
    + exists (c :: w). split; [simpl; congruence|now constructor].
    + exists []. split; [reflexivity|constructor].
Qed.

Lemma skip_ws_app (w s : jsstring) : json_spaces w -> skip_ws (w ++ s) = skip_ws s.
Proof.
  induction 1 as [|c w Hc _ IH]; [reflexivity|]. simpl. now rewrite Hc.
Qed.

Lemma skip_ws_head (s r : jsstring) (c : char16) :
  skip_ws s = c :: r -> is_json_ws c = false.
Proof.
  induction s as [|x s IH]; simpl; [discriminate|].
  destruct (is_json_ws x) eqn:E; [exact IH|]. intros H. now injection H as <- _.
Qed.

Lemma skip_ws_idem (s : jsstring) : skip_ws (skip_ws s) = skip_ws s.
Proof.
  induction s as [|x s IH]; simpl; [reflexivity|].
  destruct (is_json_ws x) eqn:E; [exact IH|]. simpl. now rewrite E.
Qed.

Lemma skip_ws_nil (s : jsstring) : skip_ws s = [] -> json_spaces s.
Proof.
  induction s as [|x s IH]; simpl; [constructor|].
  destruct (is_json_ws x) eqn:E; [|discriminate]. intros H.
  constructor; [exact E|exact (IH H)].
Qed.

Lemma json_spaces_spaces (w : jsstring) : json_spaces w -> spaces w.
Proof.
  induction 1; constructor; [now apply json_ws_is_space|assumption].
Qed.

Lemma skip_ws_token (w r : jsstring) (d : char16) :
  json_spaces w -> is_json_ws d = false -> skip_ws (w ++ d :: r) = d :: r.
Proof.
  intros Hw Hd. rewrite skip_ws_app by assumption. simpl. now rewrite Hd.
Qed.

Lemma expect_split (d : char16) (s r : jsstring) :
  expect d s = Some r -> s = d :: r.
Proof.
  destruct s as [|x s]; simpl; [discriminate|].
  destruct (x =? d) eqn:E; [|discriminate].
  apply N.eqb_eq in E. subst x. intros H. now injection H as ->.
Qed.

Lemma expect_skip_split (d : char16) (s r : jsstring) :
  expect d (skip_ws s) = Some r ->
  exists w, s = w ++ d :: r /\ json_spaces w /\ is_json_ws d = false.
Proof.
  intros H. apply expect_split in H.
  destruct (skip_ws_split s) as (w & Hs & Hw).
  exists w. rewrite H in Hs. split; [exact Hs|]. split; [exact Hw|].
  exact (skip_ws_head _ _ _ H).
Qed.

Lemma expect_skip_local (d : char16) (c x y : jsstring) :
  ends_ok c ->
  expect d (skip_ws (c ++ x)) = None -> expect d (skip_ws (c ++ y)) = None.
Proof.
  intros H.
  destruct (ends_ok_skip_ws c x H) as [-> Hne].
  destruct (ends_ok_skip_ws c y H) as [-> _].
  destruct (skip_ws c) as [|a q]; [congruence|]. simpl.
  destruct (a =? d); [discriminate|reflexivity].
Qed.

(** ** What follows a value *)

Lemma peek_app (p r r' : jsstring) : p <> [] -> peek (p ++ r) = peek (p ++ r').
Proof. destruct p; [congruence|reflexivity]. Qed.

Lemma peek_app_same (p r r' : jsstring) :
  peek r = peek r' -> peek (p ++ r) = peek (p ++ r').
Proof. destruct p; [trivial|reflexivity]. Qed.

Lemma peek_test (f : char16 -> bool) (r r' : jsstring) :
  (forall c, f c = true -> continues_number c = true) ->
  peek r = peek r' ->
  match r with c :: _ => f c | [] => false end
  = match r' with c :: _ => f c | [] => false end.
Proof.
  intros Hf. destruct r as [|x r], r' as [|y r']; simpl; trivial.
  - destruct (continues_number y) eqn:Ey; [discriminate|]. intros _.
    destruct (f y) eqn:E; [|reflexivity]. apply Hf in E. congruence.
  - destruct (continues_number x) eqn:Ex; [discriminate|]. intros _.
    destruct (f x) eqn:E; [|reflexivity]. apply Hf in E. congruence.
  - destruct (continues_number x) eqn:Ex, (continues_number y) eqn:Ey;
      try discriminate.
    + intros H. now injection H as ->.
    + intros _.
      destruct (f x) eqn:E1; [apply Hf in E1; congruence|].
      destruct (f y) eqn:E2; [apply Hf in E2; congruence|]. reflexivity.
Qed.

Lemma peek_json_spaces (r : jsstring) : json_spaces r -> peek r = peek [].
Proof.
  intros [|c q Hc _]; [reflexivity|]. simpl.
  replace (continues_number c) with false; [reflexivity|].
  unfold is_json_ws in Hc. unfold continues_number, is_digit.
  repeat (apply orb_true_iff in Hc as [Hc|Hc]);
    apply N.eqb_eq in Hc; subst c; reflexivity.
Qed.

Lemma continues_digit c : is_digit c = true -> continues_number c = true.
Proof. unfold continues_number. now intros ->. Qed.

Lemma continues_point c : (c =? 46) = true -> continues_number c = true.
Proof. unfold continues_number. intros ->. now rewrite !orb_true_r. Qed.

Lemma continues_exp c : (c =? 101) || (c =? 69) = true -> continues_number c = true.
Proof.
  unfold continues_number. intros H. rewrite <- orb_assoc, H. now rewrite !orb_true_r.
Qed.

(** ** The parts of a number *)

Lemma take_digits_stop (r : jsstring) :
  match r with c :: _ => is_digit c | [] => false end = false ->
  take_digits r = ([], r).
Proof. destruct r as [|c r]; simpl; [reflexivity|]. now intros ->. Qed.

Lemma take_digits_local (s : jsstring) ds r :
  take_digits s = (ds, r) ->
  exists c, s = c ++ r
            /\ Forall (fun x => is_digit x = true) c
            /\ length c = length ds
            /\ forall r', peek r = peek r' -> take_digits (c ++ r') = (ds, r').
Proof.
  revert ds. induction s as [|x s IH]; intros ds; simpl.
  - intros H. injection H as <- <-. exists []. repeat split; [constructor|].
    intros r' Hp. apply take_digits_stop.
    rewrite <- (peek_test is_digit [] r' continues_digit Hp). reflexivity.
  - destruct (is_digit x) eqn:Ex.
    + destruct (take_digits s) as [ds' rest] eqn:E. intros H. injection H as <- <-.
      destruct (IH ds' eq_refl) as (c & Hs & Hc & Hl & Hloc).
      exists (x :: c). split; [simpl; congruence|].
      split; [now constructor|]. split; [simpl; congruence|].
      intros r' Hp. simpl. rewrite Ex, (Hloc r' Hp). reflexivity.
    + intros H. injection H as <- <-. exists []. repeat split; [constructor|].
      intros r' Hp. apply take_digits_stop.
      rewrite <- (peek_test is_digit (x :: s) r' continues_digit Hp). exact Ex.
Qed.

Lemma int_part_local (s1 : jsstring) ids s2 :
  int_part s1 = Some (ids, s2) ->
  exists c, s1 = c ++ s2 /\ ends_ok c
            /\ forall r', peek s2 = peek r' -> int_part (c ++ r') = Some (ids, r').
Proof.
  destruct s1 as [|x r]; cbn [int_part]; [discriminate|].
  destruct (x =? 48) eqn:E48.
  - intros H. injection H as <- <-. apply N.eqb_eq in E48. subst x.
    exists [48]. split; [reflexivity|]. split; [now apply ends_ok_single|].
    reflexivity.
  - destruct (is_digit x) eqn:Ex; [|discriminate].
    intros H. injection H as H.
    destruct (take_digits_local (x :: r) ids s2 H) as (c & Hs & Hc & Hl & Hloc).
    destruct c as [|y c].
    { exfalso. rewrite Ex in H.
      destruct (take_digits r). injection H as <- _. discriminate. }
    injection Hs as <- Hs.
    exists (x :: c). split; [simpl; congruence|].
    split; [apply digits_ends_ok; [assumption|discriminate]|].
    intros r' Hp. cbn [int_part app]. rewrite E48, Ex. f_equal.
    exact (Hloc r' Hp).
Qed.

Lemma frac_part_local (s2 : jsstring) fds s3 :
  frac_part s2 = Some (fds, s3) ->
  exists c, s2 = c ++ s3 /\ (c = [] \/ ends_ok c)
            /\ forall r', peek s3 = peek r' -> frac_part (c ++ r') = Some (fds, r').
Proof.
  assert (Hstop : forall r', match r' with c :: _ => c =? 46 | [] => false end = false ->
                             frac_part r' = Some ([], r')).
  { intros [|c r']; simpl; [reflexivity|]. now intros ->. }
  destruct s2 as [|x r]; cbn [frac_part].
  - intros H. injection H as <- <-. exists []. split; [reflexivity|].
    split; [now left|]. intros r' Hp. apply Hstop.
    exact (eq_sym (peek_test (fun c => c =? 46) [] r' continues_point Hp)).
  - destruct (x =? 46) eqn:E.
    + destruct (take_digits r) as [ds rest] eqn:Et.
      destruct ds as [|d ds]; [discriminate|].
      intros H. injection H as <- <-.
      destruct (take_digits_local _ _ _ Et) as (c & Hs & Hc & Hl & Hloc).
      exists (x :: c). split; [simpl; congruence|].
      split.
      { right. apply ends_ok_cons, digits_ends_ok; [assumption|].
        intros ->. discriminate. }
      intros r' Hp. cbn [frac_part app]. rewrite E, (Hloc r' Hp). reflexivity.
    + intros H. injection H as <- <-. exists []. split; [reflexivity|].
      split; [now left|]. intros r' Hp. apply Hstop.
      exact (eq_trans (eq_sym (peek_test (fun c => c =? 46) (x :: r) r'
                                 continues_point Hp)) E).
Qed.

Lemma exp_digits_local (eneg : bool) (r1 : jsstring) e rest :
  exp_digits eneg r1 = Some (e, rest) ->
  exists y c, r1 = (y :: c) ++ rest /\ is_digit y = true /\ ends_ok (y :: c)
              /\ forall r', peek rest = peek r' ->
                            exp_digits eneg ((y :: c) ++ r') = Some (e, r').
Proof.
  unfold exp_digits.
  destruct (take_digits r1) as [ds rest0] eqn:Et.
  destruct ds as [|d ds]; [discriminate|]. cbv zeta.
  intros H. injection H as <- <-.
  destruct (take_digits_local _ _ _ Et) as (c & Hs & Hc & Hl & Hloc).
  destruct c as [|y c]; [discriminate|].
  exists y, c. split; [exact Hs|]. split; [now inversion Hc|].
  split; [apply digits_ends_ok; [assumption|discriminate]|].
  intros r' Hp. now rewrite (Hloc r' Hp).
Qed.

Lemma exp_part_local (s3 : jsstring) e rest :
  exp_part s3 = Some (e, rest) ->
  exists c, s3 = c ++ rest /\ (c = [] \/ ends_ok c)
            /\ forall r', peek rest = peek r' -> exp_part (c ++ r') = Some (e, r').
Proof.
  assert (Hstop : forall r',
             match r' with c :: _ => (c =? 101) || (c =? 69) | [] => false end = false ->
             exp_part r' = Some (0%Z, r')).
  { intros [|c r']; simpl; [reflexivity|]. now intros ->. }
  destruct s3 as [|x r]; cbn [exp_part].
  - intros H. injection H as <- <-. exists []. split; [reflexivity|].
    split; [now left|]. intros r' Hp. apply Hstop.
    exact (eq_sym (peek_test (fun c => (c =? 101) || (c =? 69)) [] r'
                     continues_exp Hp)).
  - destruct ((x =? 101) || (x =? 69)) eqn:E.
    + destruct r as [|sg r'].
      { intros H. destruct (exp_digits_local _ _ _ _ H) as (y & c & Hs & _).
        discriminate. }
      destruct (sg =? 45) eqn:E45; [|destruct (sg =? 43) eqn:E43].
      * intros H.
        destruct (exp_digits_local _ _ _ _ H) as (y & c & Hs & Hy & Hc & Hloc).
        exists (x :: sg :: y :: c). split; [simpl; simpl in Hs; congruence|].
        split; [right; do 2 apply ends_ok_cons; exact Hc|].
        intros r0 Hp. cbn [exp_part app]. rewrite E, E45. exact (Hloc r0 Hp).
      * intros H.
        destruct (exp_digits_local _ _ _ _ H) as (y & c & Hs & Hy & Hc & Hloc).
        exists (x :: sg :: y :: c). split; [simpl; simpl in Hs; congruence|].
        split; [right; do 2 apply ends_ok_cons; exact Hc|].
        intros r0 Hp. cbn [exp_part app]. rewrite E, E45, E43. exact (Hloc r0 Hp).
      * intros H.
        destruct (exp_digits_local _ _ _ _ H) as (y & c & Hs & Hy & Hc & Hloc).
        injection Hs as <- Hs.
        exists (x :: sg :: c). split; [simpl; congruence|].
        split; [right; apply ends_ok_cons; exact Hc|].
        intros r0 Hp. cbn [exp_part app]. rewrite E, E45, E43. exact (Hloc r0 Hp).
    + intros H. injection H as <- <-. exists []. split; [reflexivity|].
      split; [now left|]. intros r' Hp. apply Hstop.
      exact (eq_trans (eq_sym (peek_test (fun c => (c =? 101) || (c =? 69)) (x :: r) r'
                                 continues_exp Hp)) E).
Qed.

Lemma ends_ok_parts (a b : jsstring) :
  ends_ok a -> b = [] \/ ends_ok b -> ends_ok (a ++ b).
Proof.
  intros Ha [->|Hb]; [now rewrite app_nil_r|now apply ends_ok_app].
Qed.

Lemma parse_number_local (s : jsstring) x r :
  parse_number s = Some (x, r) ->
  exists c, s = c ++ r /\ ends_ok c
            /\ forall r', peek r = peek r' -> parse_number (c ++ r') = Some (x, r').
Proof.
  rewrite parse_number_parts.
  destruct (sign_part s) as [neg s1] eqn:Esign.
  destruct (int_part s1) as [[ids s2]|] eqn:Eint; [|discriminate].
  destruct (frac_part s2) as [[fds s3]|] eqn:Efrac; [|discriminate].
  destruct (exp_part s3) as [[e rest]|] eqn:Eexp; [|discriminate].
  intros H. injection H as <- <-.
  destruct (int_part_local _ _ _ Eint) as (ci & Hi & Oi & Li).
  destruct (frac_part_local _ _ _ Efrac) as (cf & Hf & Of & Lf).
  destruct (exp_part_local _ _ _ Eexp) as (ce & He & Oe & Le).
  assert (Hbody : ends_ok (ci ++ cf ++ ce)).
  { destruct Oe as [->|Oe].
    - rewrite app_nil_r. now apply ends_ok_parts.
    - rewrite app_assoc. now apply ends_ok_app. }
  assert (Hrest : forall r', peek rest = peek r' ->
            int_part ((ci ++ cf ++ ce) ++ r') = Some (ids, cf ++ ce ++ r')
            /\ frac_part (cf ++ ce ++ r') = Some (fds, ce ++ r')
            /\ exp_part (ce ++ r') = Some (e, r')).
  { intros r' Hp. rewrite <- !app_assoc.
    split; [|split].
    - apply Li. rewrite Hf, He. now apply peek_app_same, peek_app_same.
    - apply Lf. rewrite He. now apply peek_app_same.
    - now apply Le. }
  assert (Hs1 : s1 = (ci ++ cf ++ ce) ++ rest).
  { rewrite <- !app_assoc. congruence. }
  destruct s as [|c0 s0].
  - simpl in Esign. injection Esign as <- <-. destruct ci; discriminate.
  - simpl in Esign. destruct (c0 =? 45) eqn:E45.
    + injection Esign as <- <-.
      exists (c0 :: ci ++ cf ++ ce). split; [simpl; congruence|].
      split; [now apply ends_ok_cons|].
      intros r' Hp. destruct (Hrest r' Hp) as (H1 & H2 & H3).
      rewrite parse_number_parts. cbn [app sign_part]. rewrite E45.
      rewrite H1, H2, H3. reflexivity.
    + injection Esign as <- <-.
      exists (ci ++ cf ++ ce). split; [exact Hs1|]. split; [exact Hbody|].
      intros r' Hp. destruct (Hrest r' Hp) as (H1 & H2 & H3).
      rewrite parse_number_parts.
      assert (Hsign : sign_part ((ci ++ cf ++ ce) ++ r')
                      = (false, (ci ++ cf ++ ce) ++ r')).
      { destruct ci as [|y ci]; [now destruct Oi|].
        injection Hs1 as <- _. cbn [app sign_part]. now rewrite E45. }
      rewrite Hsign, H1, H2, H3. reflexivity.
Qed.

(** ** String literals and keywords *)

Lemma cons_fst_inv c r cs rest :
  cons_fst c r = Some (cs, rest) -> exists cs', r = Some (cs', rest) /\ cs = c :: cs'.
Proof.
  destruct r as [[cs' rest']|]; simpl; [|discriminate].
  intros H. injection H as <- <-. eauto.
Qed.

Lemma parse_chars_local (s : jsstring) k r :
  parse_chars s = Some (k, r) ->
  exists c, s = c ++ r /\ ends_ok c
            /\ forall r', parse_chars (c ++ r') = Some (k, r').
Proof.
  remember (length s) as n eqn:Hn. revert s k r Hn.
  induction n as [n IH] using lt_wf_ind. intros s k r Hn.
  destruct s as [|c s]; cbn [parse_chars]; [discriminate|].
  destruct (c =? 34) eqn:E34.
  { intros H. injection H as <- <-. apply N.eqb_eq in E34. subst c.
    exists [34]. split; [reflexivity|]. split; [now apply ends_ok_single|].
    reflexivity. }
  destruct (c =? 92) eqn:E92.
  { destruct s as [|e s]; [discriminate|].
    destruct (e =? 117) eqn:E117.
    - destruct s as [|h1 [|h2 [|h3 [|h4 s]]]]; try discriminate.
      destruct (hex4 h1 h2 h3 h4) as [u|] eqn:Eh; [|discriminate].
      intros H. apply cons_fst_inv in H as (k' & H & ->).
      assert (Hlt : (length s < n)%nat) by (subst n; simpl; lia).
      destruct (IH _ Hlt s k' r eq_refl H) as (c' & Hs & Hc & Hloc).
      exists (c :: e :: h1 :: h2 :: h3 :: h4 :: c').
      split; [simpl; congruence|].
      split; [do 6 apply ends_ok_cons; exact Hc|].
      intros r'. cbn [parse_chars app]. rewrite E34, E92, E117, Eh, Hloc.
      reflexivity.
    - destruct (escape e) as [u|] eqn:Ee; [|discriminate].
      intros H. apply cons_fst_inv in H as (k' & H & ->).
      assert (Hlt : (length s < n)%nat) by (subst n; simpl; lia).
      destruct (IH _ Hlt s k' r eq_refl H) as (c' & Hs & Hc & Hloc).
      exists (c :: e :: c'). split; [simpl; congruence|].
      split; [do 2 apply ends_ok_cons; exact Hc|].
      intros r'. cbn [parse_chars app]. rewrite E34, E92, E117, Ee, Hloc.
      reflexivity. }
  destruct (c <? 32) eqn:E32; [discriminate|].
  intros H. apply cons_fst_inv in H as (k' & H & ->).
  assert (Hlt : (length s < n)%nat) by (subst n; simpl; lia).
  destruct (IH _ Hlt s k' r eq_refl H) as (c' & Hs & Hc & Hloc).
  exists (c :: c'). split; [simpl; congruence|].
  split; [now apply ends_ok_cons|].
  intros r'. cbn [parse_chars app]. rewrite E34, E92, E32, Hloc. reflexivity.
Qed.

Lemma strip_prefix_split (p s r : jsstring) :
  strip_prefix p s = Some r -> s = p ++ r.
Proof.
  revert s. induction p as [|x p IH]; intros s; simpl.
  - destruct s; intros H; now injection H as ->.
  - destruct s as [|y s]; [discriminate|].
    destruct (x =? y) eqn:E; [|discriminate].
    apply N.eqb_eq in E. subst y. intros H. f_equal. now apply IH.
Qed.

Lemma keyword_local (k : string) (v v' : JSValue) (s r : jsstring) :
  keyword k v s = Some (v', r) ->
  v' = v /\ s = lit k ++ r /\ forall r', keyword k v (lit k ++ r') = Some (v, r').
Proof.
  unfold keyword. destruct (strip_prefix (lit k) s) as [rest|] eqn:E; [|discriminate].
  intros H. injection H as <- <-. split; [reflexivity|].
  split; [now apply strip_prefix_split|].
  intros r'. now rewrite strip_prefix_app.
Qed.

(** ** The parser reads a value from its characters alone *)

Ltac reassoc := repeat (rewrite <- app_assoc; cbn [app]); cbn [app].

Lemma parse_local (fuel : nat) :
  (forall s v r, parse_value fuel s = Some (v, r) ->
     exists c, s = c ++ r /\ ends_ok c
               /\ forall r', peek r = peek r' ->
                             parse_value fuel (c ++ r') = Some (v, r'))
  /\ (forall s acc ps r, parse_members fuel s acc = Some (ps, r) ->
        exists c, s = c ++ r /\ ends_ok c
                  /\ forall r', parse_members fuel (c ++ r') acc = Some (ps, r'))
  /\ (forall s acc xs r, parse_elements fuel s acc = Some (xs, r) ->
        exists c, s = c ++ r /\ ends_ok c
                  /\ forall r', parse_elements fuel (c ++ r') acc = Some (xs, r')).
Proof.
  induction fuel as [|fuel (IHv & IHm & IHe)]; [repeat split; discriminate|].
  split; [|split].
  - intros s v r. cbn [parse_value].
    destruct (skip_ws_split s) as (w & Hs & Hw).
    destruct (skip_ws s) as [|ch r0] eqn:Esk; [discriminate|].
    pose proof (skip_ws_head _ _ _ Esk) as Hch.
    assert (Hgo : forall c0,
               ch :: r0 = (ch :: c0) ++ r -> ends_ok (ch :: c0) ->
               (forall r', peek r = peek r' ->
                           parse_value (S fuel) ((ch :: c0) ++ r') = Some (v, r')) ->
               exists c, s = c ++ r /\ ends_ok c
                         /\ forall r', peek r = peek r' ->
                                       parse_value (S fuel) (c ++ r') = Some (v, r')).
    { intros c0 H0 Hok Hloc. exists (w ++ ch :: c0).
      split; [rewrite <- app_assoc, <- H0; exact Hs|].
      split; [now apply ends_ok_app|].
      intros r' Hp. rewrite <- (Hloc r' Hp). rewrite <- app_assoc.
      cbn [parse_value]. rewrite skip_ws_app by assumption.
      cbn [app skip_ws]. rewrite Hch. reflexivity. }
    destruct (ch =? 123) eqn:E123.
    { destruct (expect 125 (skip_ws r0)) as [rest|] eqn:Eclose.
      - intros H. injection H as <- <-.
        destruct (expect_skip_split _ _ _ Eclose) as (w' & H0 & Hw' & H125).
        apply (Hgo (w' ++ [125])).
        + cbn [app]. rewrite <- app_assoc. cbn [app]. congruence.
        + apply ends_ok_cons, ends_ok_app, ends_ok_single. reflexivity.
        + intros r' _. cbn [parse_value app skip_ws]. rewrite Hch, E123.
          rewrite <- app_assoc. cbn [app]. rewrite skip_ws_token by assumption.
          reflexivity.
      - destruct (parse_members fuel r0 []) as [[ps rest]|] eqn:Em; [|discriminate].
        intros H. injection H as <- <-.
        destruct (IHm _ _ _ _ Em) as (cm & H0 & Hcm & Hloc).
        apply (Hgo cm).
        + cbn [app]. congruence.
        + now apply ends_ok_cons.
        + intros r' _. cbn [parse_value app skip_ws]. rewrite Hch, E123.
          rewrite H0 in Eclose.
          rewrite (expect_skip_local 125 cm rest r' Hcm Eclose), Hloc. reflexivity. }
    destruct (ch =? 91) eqn:E91.
    { destruct (expect 93 (skip_ws r0)) as [rest|] eqn:Eclose.
      - intros H. injection H as <- <-.
        destruct (expect_skip_split _ _ _ Eclose) as (w' & H0 & Hw' & H93).
        apply (Hgo (w' ++ [93])).
        + cbn [app]. rewrite <- app_assoc. cbn [app]. congruence.
        + apply ends_ok_cons, ends_ok_app, ends_ok_single. reflexivity.
        + intros r' _. cbn [parse_value app skip_ws]. rewrite Hch, E123, E91.
          rewrite <- app_assoc. cbn [app]. rewrite skip_ws_token by assumption.
          reflexivity.
      - destruct (parse_elements fuel r0 []) as [[xs rest]|] eqn:Ee; [|discriminate].
        intros H. injection H as <- <-.
        destruct (IHe _ _ _ _ Ee) as (ce & H0 & Hce & Hloc).
        apply (Hgo ce).
        + cbn [app]. congruence.
        + now apply ends_ok_cons.
        + intros r' _. cbn [parse_value app skip_ws]. rewrite Hch, E123, E91.
          rewrite H0 in Eclose.
          rewrite (expect_skip_local 93 ce rest r' Hce Eclose), Hloc. reflexivity. }
    destruct (ch =? 34) eqn:E34.
    { destruct (parse_chars r0) as [[str rest]|] eqn:Ec; [|discriminate].
      intros H. injection H as <- <-.
      destruct (parse_chars_local _ _ _ Ec) as (ck & H0 & Hck & Hloc).
      apply (Hgo ck).
      - cbn [app]. congruence.
      - now apply ends_ok_cons.
      - intros r' _. cbn [parse_value app skip_ws]. rewrite Hch, E123, E91, E34.
        now rewrite Hloc. }
    assert (Hkw : forall k v0,
               keyword k v0 (ch :: r0) = Some (v, r) ->
               ends_ok (lit k) ->
               (forall r', parse_value (S fuel) (lit k ++ r') = keyword k v0 (lit k ++ r')) ->
               exists c, s = c ++ r /\ ends_ok c
                         /\ forall r', peek r = peek r' ->
                                       parse_value (S fuel) (c ++ r') = Some (v, r')).
    { intros k v0 H Hok Hpv.
      destruct (keyword_local _ _ _ _ _ H) as (-> & H0 & Hloc).
      destruct (lit k) as [|y c0] eqn:Ek; [now destruct Hok|].
      injection H0 as <- H0.
      apply (Hgo c0); [cbn [app]; congruence|exact Hok|].
      intros r' _. rewrite Hpv. apply Hloc. }
    destruct (ch =? 116) eqn:E116.
    { intros H. apply N.eqb_eq in E116. subst ch.
      apply (Hkw "true"%string (JBool true) H); [split; [reflexivity|discriminate]|].
      reflexivity. }
    destruct (ch =? 102) eqn:E102.
    { intros H. apply N.eqb_eq in E102. subst ch.
      apply (Hkw "false"%string (JBool false) H); [split; [reflexivity|discriminate]|].
      reflexivity. }
    destruct (ch =? 110) eqn:E110.
    { intros H. apply N.eqb_eq in E110. subst ch.
      apply (Hkw "null"%string JNull H); [split; [reflexivity|discriminate]|].
      reflexivity. }
    destruct (parse_number (ch :: r0)) as [[x rest]|] eqn:En; [|discriminate].
    intros H. injection H as <- <-.
    destruct (parse_number_local _ _ _ En) as (cn & H0 & Hcn & Hloc).
    destruct cn as [|y cn]; [now destruct Hcn|].
    injection H0 as <- H0.
    apply (Hgo cn); [cbn [app]; congruence|exact Hcn|].
    intros r' Hp. cbn [parse_value skip_ws].
    change ((ch :: cn) ++ r') with (ch :: cn ++ r').
    cbn [skip_ws]. rewrite Hch, E123, E91, E34, E116, E102, E110.
    change (ch :: cn ++ r') with ((ch :: cn) ++ r').
    now rewrite (Hloc r' Hp).
  - intros s acc ps r. cbn [parse_members].
    destruct (expect 34 (skip_ws s)) as [r0|] eqn:E0; [|discriminate].
    destruct (expect_skip_split _ _ _ E0) as (w0 & Hs & Hw0 & H34).
    destruct (parse_chars r0) as [[k r1]|] eqn:E1; [|discriminate].
    destruct (parse_chars_local _ _ _ E1) as (ck & Hr0 & _ & Lk).
    destruct (expect 58 (skip_ws r1)) as [r2|] eqn:E2; [|discriminate].
    destruct (expect_skip_split _ _ _ E2) as (w1 & Hr1 & Hw1 & H58).
    destruct (parse_value fuel r2) as [[v r3]|] eqn:E3; [|discriminate].
    destruct (IHv _ _ _ E3) as (cv & Hr2 & _ & Lv).
    cbv zeta.
    destruct (skip_ws_split r3) as (w3 & Hr3 & Hw3).
    destruct (skip_ws r3) as [|d r4] eqn:E4; [discriminate|].
    pose proof (skip_ws_head _ _ _ E4) as Hd.
    assert (Hgo : forall tail,
               r4 = tail ++ r ->
               (tail = [] -> (d =? 44) = false /\ (d =? 125) = true
                             /\ ps = set_property acc k v) ->
               (tail <> [] -> (d =? 44) = true /\ ends_ok tail
                  /\ forall r', parse_members fuel (tail ++ r') (set_property acc k v)
                                = Some (ps, r')) ->
               exists c, s = c ++ r /\ ends_ok c
                 /\ forall r', parse_members (S fuel) (c ++ r') acc = Some (ps, r')).
    { intros tail Hr4 Hnil Hcons.
      exists (w0 ++ 34 :: ck ++ w1 ++ 58 :: cv ++ w3 ++ d :: tail).
      split.
      { reassoc. congruence. }
      split.
      { apply ends_ok_app, ends_ok_cons, ends_ok_app, ends_ok_app, ends_ok_cons,
          ends_ok_app, ends_ok_app.
        destruct tail as [|t0 tail].
        - destruct (Hnil eq_refl) as (_ & H125 & _).
          apply N.eqb_eq in H125. subst d. now apply ends_ok_single.
        - apply ends_ok_cons. apply Hcons. discriminate. }
      intros r'. reassoc. cbn [parse_members].
      rewrite skip_ws_token by assumption. cbn [expect]. rewrite N.eqb_refl.
      rewrite Lk. rewrite skip_ws_token by assumption. cbn [expect].
      rewrite N.eqb_refl.
      rewrite (Lv (w3 ++ d :: tail ++ r')).
      2:{ rewrite Hr3, Hr4.
          change (d :: tail ++ r) with ([d] ++ tail ++ r).
          change (d :: tail ++ r') with ([d] ++ tail ++ r').
          rewrite !(app_assoc w3). apply peek_app. now destruct w3. }
      cbv zeta. rewrite skip_ws_token by assumption.
      destruct tail as [|t0 tail].
      - destruct (Hnil eq_refl) as (H44 & H125 & ->). now rewrite H44, H125.
      - destruct Hcons as (H44 & _ & Hloc); [discriminate|]. rewrite H44. apply Hloc. }
    destruct (d =? 44) eqn:E44.
    + intros H. destruct (IHm _ _ _ _ H) as (cm & Hr4 & Hcm & Lm).
      apply (Hgo cm Hr4).
      * intros ->. now destruct Hcm.
      * intros _. auto.
    + destruct (d =? 125) eqn:E125; [|discriminate].
      intros H. injection H as <- <-.
      apply (Hgo []); [reflexivity|auto|congruence].
  - intros s acc xs r. cbn [parse_elements].
    destruct (parse_value fuel s) as [[v r1]|] eqn:E1; [|discriminate].
    destruct (IHv _ _ _ E1) as (cv & Hs & Hcv & Lv).
    destruct (skip_ws_split r1) as (w1 & Hr1 & Hw1).
    destruct (skip_ws r1) as [|d r2] eqn:E2; [discriminate|].
    pose proof (skip_ws_head _ _ _ E2) as Hd.
    assert (Hgo : forall tail,
               r2 = tail ++ r ->
               (tail = [] -> (d =? 44) = false /\ (d =? 93) = true
                             /\ xs = acc ++ [v]) ->
               (tail <> [] -> (d =? 44) = true /\ ends_ok tail
                  /\ forall r', parse_elements fuel (tail ++ r') (acc ++ [v])
                                = Some (xs, r')) ->
               exists c, s = c ++ r /\ ends_ok c
                 /\ forall r', parse_elements (S fuel) (c ++ r') acc = Some (xs, r')).
    { intros tail Hr2 Hnil Hcons.
      exists (cv ++ w1 ++ d :: tail).
      split.
      { reassoc. congruence. }
      split.
      { apply ends_ok_app, ends_ok_app.
        destruct tail as [|t0 tail].
        - destruct (Hnil eq_refl) as (_ & H93 & _).
          apply N.eqb_eq in H93. subst d. now apply ends_ok_single.
        - apply ends_ok_cons. apply Hcons. discriminate. }
      intros r'. reassoc. cbn [parse_elements].
      rewrite (Lv (w1 ++ d :: tail ++ r')).
      2:{ rewrite Hr1, Hr2.
          change (d :: tail ++ r) with ([d] ++ tail ++ r).
          change (d :: tail ++ r') with ([d] ++ tail ++ r').
          rewrite !(app_assoc w1). apply peek_app. now destruct w1. }
      rewrite skip_ws_token by assumption.
      destruct tail as [|t0 tail].
      - destruct (Hnil eq_refl) as (H44 & H93 & ->). now rewrite H44, H93.
      - destruct Hcons as (H44 & _ & Hloc); [discriminate|]. rewrite H44. apply Hloc. }
    destruct (d =? 44) eqn:E44.
    + intros H. destruct (IHe _ _ _ _ H) as (ce & Hr2 & Hce & Le).
      apply (Hgo ce Hr2).
      * intros ->. now destruct Hce.
      * intros _. auto.
    + destruct (d =? 93) eqn:E93; [|discriminate].
      intros H. injection H as <- <-.
      apply (Hgo []); [reflexivity|auto|congruence].
Qed.

(** A value starts, after JSON white space, with a character that is no
    white space of [trim] either. *)
Lemma parse_value_start (fuel : nat) (s : jsstring) v r :
  parse_value fuel s = Some (v, r) ->
  exists ch q, skip_ws s = ch :: q /\ is_space ch = false.
Proof.
  destruct fuel as [|fuel]; cbn [parse_value]; [discriminate|].
  destruct (skip_ws s) as [|ch q]; [discriminate|].
  intros H. exists ch, q. split; [reflexivity|].
  destruct (ch =? 123) eqn:E123; [apply N.eqb_eq in E123; now subst ch|].
  destruct (ch =? 91) eqn:E91; [apply N.eqb_eq in E91; now subst ch|].
  destruct (ch =? 34) eqn:E34; [apply N.eqb_eq in E34; now subst ch|].
  destruct (ch =? 116) eqn:E116; [apply N.eqb_eq in E116; now subst ch|].
  destruct (ch =? 102) eqn:E102; [apply N.eqb_eq in E102; now subst ch|].
  destruct (ch =? 110) eqn:E110; [apply N.eqb_eq in E110; now subst ch|].
  destruct (ch =? 45) eqn:E45; [apply N.eqb_eq in E45; now subst ch|].
  destruct (is_digit ch) eqn:Ed; [now apply digit_not_space|].
  exfalso. revert H. unfold parse_number. rewrite E45.
  destruct (ch =? 48) eqn:E48.
  { apply N.eqb_eq in E48. subst ch. discriminate. }
  rewrite Ed. discriminate.
Qed.

Lemma parse_value_skip_ws (fuel : nat) (s : jsstring) :
  parse_value fuel (skip_ws s) = parse_value fuel s.
Proof.
  destruct fuel as [|fuel]; [reflexivity|]. cbn [parse_value].
  now rewrite skip_ws_idem.
Qed.

(** [JSON.parse] gives the same value for a text and for the text
    trimmed. *)
Lemma parse_trim (t : jsstring) (v : JSValue) :
  JSON.parse t = Some v -> JSON.parse (trim t) = Some v.
Proof.
  unfold JSON.parse at 1.
  destruct (parse_value (S (length t)) t) as [[v' rest]|] eqn:E; [|discriminate].
  destruct (skip_ws rest) eqn:Erest; [|discriminate].
  intros H. injection H as ->.
  apply skip_ws_nil in Erest.
  destruct (parse_value_start _ _ _ _ E) as (ch & q & Hsk & Hch).
  destruct (proj1 (parse_local _) _ _ _ E) as (c & Ht & Hc & Hloc).
  specialize (Hloc [] (peek_json_spaces rest Erest)).
  rewrite app_nil_r in Hloc.
  destruct (ends_ok_skip_ws c rest Hc) as [Happ Hne].
  rewrite <- Ht, Hsk in Happ.
  assert (Htrim : trim t = skip_ws c).
  { unfold trim. rewrite (skip_ws_trimStart t q ch Hsk Hch), Happ.
    rewrite trimEnd_spaces by now apply json_spaces_spaces.
    destruct (skip_ws_split c) as (w & Hw & _).
    destruct Hc as [Hc _].
    destruct (skip_ws c) as [|x b]; [congruence|].
    injection Happ as <- _.
    assert (Hb : trimEnd (ch :: b) <> [])
      by (rewrite trimEnd_nonspace by exact Hch; discriminate).
    rewrite Hw, trimEnd_app_keep in Hc by exact Hb.
    now apply app_inv_head in Hc. }
  rewrite Htrim. unfold JSON.parse.
  rewrite <- parse_value_skip_ws in Hloc.
  rewrite (proj1 (parse_fuel_consumed _) _ _ _ Hloc (S (length (skip_ws c))))
    by (simpl; lia).
  reflexivity.
Qed.

(* ================================================================== *)
(** * The runs of the extraction flow *)
(* ================================================================== *)

Ltac run_flow :=
  cbv [run analyzeReceipt handleChatMessage bind try_catch try_finally await
       lift emit read write ret throw setIsAnalyzing setReceiptData toast
       console_error console_warn state log].

Lemma analyze_upload_rejected blink file st e :
  storage_upload blink file (upload_path file) true = inl e ->
  run (analyzeReceipt blink file) st =
    {| result := inr tt;
       final := with_analyzing st false;
       events := [SetIsAnalyzing true; StorageUpload file (upload_path file) true]
                 ++ analysis_failure_events e ++ [SetIsAnalyzing false] |}.
Proof.
  intros H. run_flow. rewrite H. reflexivity.
Qed.

Lemma analyze_completion_rejected blink file st publicUrl e :
  storage_upload blink file (upload_path file) true = inr publicUrl ->
  ai_generateText blink (Messages instruction publicUrl) = inl e ->
  run (analyzeReceipt blink file) st =
    {| result := inr tt;
       final := with_analyzing st false;
       events := [SetIsAnalyzing true; StorageUpload file (upload_path file) true;
                  AiGenerateText (Messages instruction publicUrl)]
                 ++ analysis_failure_events e ++ [SetIsAnalyzing false] |}.
Proof.
  intros H1 H2. run_flow. rewrite H1, H2. reflexivity.
Qed.

Lemma analyze_not_normalized blink file st publicUrl text e :
  storage_upload blink file (upload_path file) true = inr publicUrl ->
  ai_generateText blink (Messages instruction publicUrl) = inr text ->
  normalize text = inl e ->
  run (analyzeReceipt blink file) st =
    {| result := inr tt;
       final := with_analyzing st false;
       events := [SetIsAnalyzing true; StorageUpload file (upload_path file) true;
                  AiGenerateText (Messages instruction publicUrl)]
                 ++ parse_failure_events e text ++ [SetIsAnalyzing false] |}.
Proof.
  intros H1 H2 H3. run_flow. rewrite H1, H2.
  unfold normalize, validate, cbind in H3.
  destruct (JSON_parse (cleaned text)) as [e'|v].
  - injection H3 as ->. reflexivity.
  - destruct (missing_required v) as [e'|[]]; [| |discriminate];
      injection H3 as <-; reflexivity.
Qed.

Lemma analyze_published blink file st publicUrl text v :
  storage_upload blink file (upload_path file) true = inr publicUrl ->
  ai_generateText blink (Messages instruction publicUrl) = inr text ->
  normalize text = inr v ->
  run (analyzeReceipt blink file) st =
    {| result := inr tt;
       final := with_analyzing (with_record (with_analyzing st true) v) false;
       events := [SetIsAnalyzing true; StorageUpload file (upload_path file) true;
                  AiGenerateText (Messages instruction publicUrl);
                  SetReceiptData v]
                 ++ persistence_events blink (user st) v publicUrl
                 ++ notification_events v text
                 ++ [SetIsAnalyzing false] |}.
Proof.
  intros H1 H2 H3. run_flow. rewrite H1, H2.
  unfold normalize, validate, cbind in H3.
  destruct (JSON_parse (cleaned text)) as [e'|v']; [discriminate|].
  destruct (missing_required v') as [e'|[]]; try discriminate.
  injection H3 as ->.
  unfold persistence_events, notification_events.
  cbv [with_record with_analyzing user].
  destruct (receipt_row _ _ _ _) as [e1|row].
  - destruct (success_description v); reflexivity.
  - destruct (db_receipts_create blink row) as [e1|[]];
      destruct (success_description v); reflexivity.
Qed.

Lemma ordered_seen A B seen tr :
  ordered A B seen tr = true ->
  forall pre b post, tr = pre ++ b :: post -> B b = true ->
    seen = true \/ exists a, In a pre /\ A a = true.
Proof.
  revert seen. induction tr as [|x tr IH]; intros seen H pre b post E Hb.
  - destruct pre; discriminate.
  - simpl in H. apply andb_true_iff in H as [Hx Htr].
    destruct pre as [|p pre]; simpl in E; injection E as -> ->.
    + rewrite Hb in Hx. simpl in Hx. rewrite orb_false_r in Hx. now left.
    + destruct (IH _ Htr pre b post eq_refl Hb) as [Hs|(a & Ha & HA)].
      * apply orb_true_iff in Hs as [Hs|Hs]; [now left|].
        right. exists p. split; [now left|assumption].
      * right. exists a. split; [now right|assumption].
Qed.

Lemma ordered_precedes A B tr : ordered A B false tr = true -> precedes A B tr.
Proof.
  intros H pre b post E Hb.
  destruct (ordered_seen A B false tr H pre b post E Hb) as [|]; [discriminate|assumption].
Qed.

Lemma analyze_paths blink file :
  (exists e, storage_upload blink file (upload_path file) true = inl e)
  \/ (exists publicUrl,
        storage_upload blink file (upload_path file) true = inr publicUrl
        /\ ((exists e, ai_generateText blink (Messages instruction publicUrl) = inl e)
            \/ exists text,
                 ai_generateText blink (Messages instruction publicUrl) = inr text
                 /\ ((exists e, normalize text = inl e)
                     \/ exists v, normalize text = inr v))).
Proof.
  destruct (storage_upload blink file (upload_path file) true) as [e|publicUrl];
    [left; eauto|right].
  exists publicUrl. split; [reflexivity|].
  destruct (ai_generateText blink (Messages instruction publicUrl)) as [e|text];
    [left; eauto|right].
  exists text. split; [reflexivity|].
  destruct (normalize text); eauto.
Qed.

Lemma validate_inr v v' : validate v = inr v' -> v' = v.
Proof.
  unfold validate, cbind. destruct (missing_required v) as [|[]]; congruence.
Qed.

Lemma normalize_inr text v :
  normalize text = inr v -> JSON.parse (cleaned text) = Some v /\ validate v = inr v.
Proof.
  unfold normalize, JSON_parse, cbind.
  destruct (JSON.parse (cleaned text)) as [v'|]; [|discriminate].
  intros H. pose proof (validate_inr _ _ H). subst v'. auto.
Qed.

Lemma normalize_inl text :
  (JSON.parse (cleaned text) = None \/
   exists v e, JSON.parse (cleaned text) = Some v /\ validate v = inl e) ->
  exists e, normalize text = inl e.
Proof.
  unfold normalize, JSON_parse, cbind.
  intros [H|(v & e & H & Hv)]; rewrite H; eauto.
Qed.

Ltac split_events :=
  unfold persistence_events, notification_events, parse_failure_events,
    analysis_failure_events;
  repeat match goal with
         | |- context [match ?x with _ => _ end] => destruct x
         end.

Ltac pick := cbn [In]; repeat first [left; reflexivity | right].

Lemma not_published (tr : list Event) :
  forallb (fun ev => negb (is_publication ev)) tr = true ->
  forall v, ~ In (SetReceiptData v) tr.
Proof.
  intros H v Hin. rewrite forallb_forall in H. specialize (H _ Hin). discriminate.
Qed.

Lemma no_completion (tr : list Event) :
  forallb (fun ev => negb (is_completion ev)) tr = true ->
  forall req, ~ In (AiGenerateText req) tr.
Proof.
  intros H req Hin. rewrite forallb_forall in H. specialize (H _ Hin). discriminate.
Qed.

Lemma missing_required_object props :
  missing_required (JObject props) =
    inr (negb (ToBoolean (own_or_undefined (lit "merchant") props)
               && ToBoolean (own_or_undefined (lit "total") props)
               && ToBoolean (own_or_undefined (lit "items") props))).
Proof.
  unfold missing_required, cbind, Get.
  destruct (ToBoolean (own_or_undefined (lit "merchant") props)); [|reflexivity].
  destruct (ToBoolean (own_or_undefined (lit "total") props)); reflexivity.
Qed.

Lemma validate_truthy v v' :
  validate v = inr v' <->
  v' = v /\ truthy_field v "merchant" /\ truthy_field v "total" /\ truthy_field v "items".
Proof.
  unfold validate, missing_required, truthy_field, cbind. split.
  - destruct (Get v (lit "merchant")) as [|m]; [discriminate|].
    destruct (ToBoolean m) eqn:Hm; [|discriminate]. cbn [negb].
    destruct (Get v (lit "total")) as [|t]; [discriminate|].
    destruct (ToBoolean t) eqn:Ht; [|discriminate]. cbn [negb].
    destruct (Get v (lit "items")) as [|i]; [discriminate|].
    destruct (ToBoolean i) eqn:Hi; [|discriminate]. cbn [negb].
    intros H. injection H as <-. eauto 10.
  - intros (-> & (m & -> & ->) & (t & -> & ->) & (i & -> & ->)). reflexivity.
Qed.

Lemma success_description_typed props m xs :
  lookup (lit "merchant") props = Some (JString m) ->
  lookup (lit "items") props = Some (JArray xs) ->
  success_description (JObject props) =
    inr [Chars (lit "Found "); NumberToString (number_of_nat (length xs));
         Chars (lit " items from "); Chars m].
Proof.
  intros Hm Hi. unfold success_description, cbind, Get, own_or_undefined.
  rewrite Hm, Hi. reflexivity.
Qed.

(** Only an object passes validation: the record a run publishes is never
    [null], a primitive or an array. *)
Lemma validated_is_object v v' :
  validate v = inr v' -> exists props, v = JObject props.
Proof.
  destruct v as [| |b|x|s|xs|props]; try discriminate; eauto.
Qed.

(** With a record, the bridge sends one prompt and returns the reply as it
    is; when the prompt cannot be built or the call is rejected it returns
    the fixed apology. *)
Lemma chat_forwards blink message st data prompt reply :
  receiptData st = Some data -> ToBoolean data = true ->
  chat_prompt data message = inr prompt ->
  ai_generateText blink (Prompt prompt) = inr reply ->
  run (handleChatMessage blink message) st =
    {| result := inr reply; final := st; events := [AiGenerateText (Prompt prompt)] |}.
Proof.
  intros Hd Ht Hp Hr. run_flow. rewrite Hd, Ht, Hp, Hr. reflexivity.
Qed.

Lemma chat_rejected blink message st data prompt e :
  receiptData st = Some data -> ToBoolean data = true ->
  chat_prompt data message = inr prompt ->
  ai_generateText blink (Prompt prompt) = inl e ->
  run (handleChatMessage blink message) st =
    {| result := inr chat_apology; final := st;
       events := [AiGenerateText (Prompt prompt);
                  ConsoleError (lit "Chat message failed:") (LogExn e)] |}.
Proof.
  intros Hd Ht Hp Hr. run_flow. rewrite Hd, Ht, Hp, Hr. reflexivity.
Qed.

(** The drop handler forwards the first file exactly when its media type
    starts with [image/]. *)
Lemma handleDrop_images_only (files : list File) (st : ReceiptUpload.State) :
  match files with
  | file :: _ =>
      if startsWith (file_type file) (lit "image/")
      then ReceiptUpload.handleDrop files st =
             ({| ReceiptUpload.dragActive := false;
                 ReceiptUpload.selectedFile := Some file |}, [file])
      else ReceiptUpload.handleDrop files st =
             ({| ReceiptUpload.dragActive := false;
                ReceiptUpload.selectedFile := ReceiptUpload.selectedFile st |}, [])
  | [] => ReceiptUpload.handleDrop files st =
            ({| ReceiptUpload.dragActive := false;
                ReceiptUpload.selectedFile := ReceiptUpload.selectedFile st |}, [])
  end.
Proof.
  destruct files as [|file rest]; [reflexivity|].
  unfold ReceiptUpload.handleDrop.
  destruct (startsWith (file_type file) (lit "image/")); reflexivity.
Qed.

(** Scenario A of the specification: the fenced reply is published and the
    notification names two items and the merchant. *)
Example scenario_A :
  let blink := Scenario.collaborators (inr Scenario.url)
                 (inr Scenario.corner_store_reply) (inr tt) in
  let o := run (analyzeReceipt blink Scenario.receipt_jpg) Scenario.signed_in in
  result o = inr tt
  /\ receiptData (final o) = JSON.parse Scenario.corner_store
  /\ isAnalyzing (final o) = false
  /\ In (Toast (success_toast
                  [Chars (lit "Found "); NumberToString (number_of_nat 2);
                   Chars (lit " items from "); Chars (lit "Corner Store")]))
        (events o).
Proof.
  vm_compute. repeat split. pick.
Qed.

(* ================================================================== *)
(** * The properties of the specification *)
(* ================================================================== *)

Import Scenario.

(** C1. When the text of the AI, after trimming and fence-stripping, is not
    valid JSON, or parses to a value that fails the validation of the
    required fields, the Normalizer fails with an exception that the flow
    reports as a parse failure, and the Result Store is left as it was: the
    run never calls [setReceiptData], so the previous record (or its
    absence) stands and nothing partial is published. *)
Theorem invalid_response_leaves_store_unchanged
  blink file st publicUrl text :
  storage_upload blink file (upload_path file) true = inr publicUrl ->
  ai_generateText blink (Messages instruction publicUrl) = inr text ->
  (JSON.parse (cleaned text) = None
   \/ exists v e, JSON.parse (cleaned text) = Some v /\ validate v = inl e) ->
  let o := run (analyzeReceipt blink file) st in
  exists e,
    normalize text = inl e
    /\ events o =
         [SetIsAnalyzing true; StorageUpload file (upload_path file) true;
          AiGenerateText (Messages instruction publicUrl)]
         ++ parse_failure_events e text ++ [SetIsAnalyzing false]
    /\ receiptData (final o) = receiptData st
    /\ (forall v, ~ In (SetReceiptData v) (events o)).
Proof.
  intros Hu Hg Hbad. cbv zeta.
  destruct (normalize_inl text Hbad) as [e He].
  rewrite (analyze_not_normalized _ _ _ _ _ _ Hu Hg He). cbn [events final].
  exists e. split; [exact He|]. split; [reflexivity|]. split; [reflexivity|].
  apply not_published. reflexivity.
Qed.

Lemma invalid_response_witness :
  let blink := collaborators (inr url) (inr shop_only) (inr tt) in
  (exists v e, JSON.parse (cleaned shop_only) = Some v /\ validate v = inl e)
  /\ exists e,
       normalize shop_only = inl e
       /\ receiptData (final (run (analyzeReceipt blink receipt_jpg) signed_in)) = None.
Proof.
  intros blink.
  assert (Hbad : exists v e, JSON.parse (cleaned shop_only) = Some v /\ validate v = inl e)
    by (vm_compute; eauto).
  split; [exact Hbad|].
  destruct (invalid_response_leaves_store_unchanged blink receipt_jpg signed_in
              url shop_only eq_refl eq_refl (or_intror Hbad))
    as (e & He & _ & Hstore & _).
  exists e. split; [exact He|exact Hstore].
Defined.

(** C2. For a text [t] that [JSON.parse] accepts as an object, the Normalizer
    parses that same object from [t] itself, from [t] wrapped in a [```json]
    fence, from [t] wrapped in a generic fence, and from [t] between leading
    and trailing white space. In each case the cleaned text is [t] trimmed,
    [JSON.parse] of it gives the object that [JSON.parse] gives for [t], and
    the result of the Normalizer is the validation of that object. The
    fences may be separated from [t] by any white space. *)
Theorem fenced_response_parses_alike (t w1 w2 : jsstring) props :
  JSON.parse t = Some (JObject props) -> spaces w1 -> spaces w2 ->
  let parsed (raw : jsstring) :=
    cleaned raw = trim t
    /\ JSON_parse (cleaned raw) = inr (JObject props)
    /\ normalize raw = validate (JObject props) in
  parsed t
  /\ parsed (lit "```json" ++ w1 ++ t ++ w2 ++ lit "```")
  /\ parsed (lit "```" ++ w1 ++ t ++ w2 ++ lit "```")
  /\ parsed (w1 ++ t ++ w2).
Proof.
  intros Hobj H1 H2 parsed.
  destruct (parse_object_brace t props Hobj) as [r Hr].
  pose proof (parse_trim t _ Hobj) as Htrim.
  assert (Hparsed : forall raw, cleaned raw = trim t -> parsed raw).
  { intros raw E. unfold parsed, normalize, JSON_parse, cbind.
    rewrite E, Htrim. auto. }
  split; [|split; [|split]]; apply Hparsed.
  - now apply (cleaned_bare t r).
  - now apply (cleaned_json_fence w1 t w2 r).
  - now apply (cleaned_generic_fence w1 t w2 r).
  - rewrite cleaned_padded by assumption. now apply (cleaned_bare t r).
Qed.

Lemma fenced_response_witness :
  exists props,
    JSON.parse corner_store = Some (JObject props)
    /\ normalize corner_store_reply = validate (JObject props)
    /\ normalize (lit "```" ++ nl ++ corner_store ++ nl ++ lit "```")
       = validate (JObject props)
    /\ normalize (lit "  " ++ corner_store ++ nl) = validate (JObject props).
Proof.
  assert (Hnl : spaces nl) by (repeat constructor).
  assert (Hsp : spaces (lit "  ")) by (repeat constructor).
  destruct (JSON.parse corner_store) as [[| | | | | |props]|] eqn:E;
    try (vm_compute in E; discriminate).
  exists props. split; [reflexivity|].
  destruct (fenced_response_parses_alike corner_store nl nl props E Hnl Hnl)
    as (_ & (_ & _ & Ha) & (_ & _ & Hb) & _).
  destruct (fenced_response_parses_alike corner_store (lit "  ") nl props E Hsp Hnl)
    as (_ & _ & _ & (_ & _ & Hc)).
  repeat split; assumption.
Defined.

(** C3. A parsed JSON object without [merchant], without [total] or without
    [items] fails validation, whatever else it holds, and so does the
    Normalizer on any text that parses to it. Validation passes exactly when
    the three fields are truthy, and then returns the parsed value itself:
    the value a run publishes is the one [JSON.parse] returned, with no
    change of shape. *)
Theorem missing_field_fails_validation :
  (forall props,
      lookup (lit "merchant") props = None
      \/ lookup (lit "total") props = None
      \/ lookup (lit "items") props = None ->
      validate (JObject props) = inl missing_fields
      /\ forall text, JSON.parse (cleaned text) = Some (JObject props) ->
                      normalize text = inl missing_fields)
  /\ (forall v v',
        validate v = inr v' <->
        v' = v /\ truthy_field v "merchant" /\ truthy_field v "total"
        /\ truthy_field v "items")
  /\ (forall blink file st publicUrl text v,
        storage_upload blink file (upload_path file) true = inr publicUrl ->
        ai_generateText blink (Messages instruction publicUrl) = inr text ->
        normalize text = inr v ->
        let o := run (analyzeReceipt blink file) st in
        JSON.parse (cleaned text) = Some v
        /\ receiptData (final o) = Some v
        /\ In (SetReceiptData v) (events o)).
Proof.
  split; [|split].
  - intros props Hmiss.
    assert (Hv : validate (JObject props) = inl missing_fields).
    { unfold validate, cbind. rewrite missing_required_object.
      unfold own_or_undefined.
      destruct Hmiss as [H|[H|H]]; rewrite H; cbn [ToBoolean];
        rewrite ?andb_false_r; reflexivity. }
    split; [exact Hv|].
    intros text Hp. unfold normalize, JSON_parse, cbind. now rewrite Hp.
  - exact validate_truthy.
  - intros blink file st publicUrl text v Hu Hg Hn. cbv zeta.
    rewrite (analyze_published _ _ _ _ _ _ Hu Hg Hn). cbn [final events].
    split; [apply (normalize_inr _ _ Hn)|]. split; [reflexivity|].
    simpl. auto.
Qed.

Lemma missing_field_witness :
  lookup (lit "total") [(lit "merchant", JString (lit "Shop"))] = None
  /\ normalize shop_only = inl missing_fields.
Proof.
  split; [reflexivity|].
  apply (proj1 missing_field_fails_validation [(lit "merchant", JString (lit "Shop"))]).
  - right. left. reflexivity.
  - vm_compute. reflexivity.
Defined.

(** C4. The claim holds for a pointer drop and fails for the file picker: a
    PDF delivered by a drop is ignored, the same file delivered by the
    change event of the file input is recorded as the selected file and
    handed to [onUpload]. *)
Theorem picker_forwards_any_media_type :
  startsWith (file_type report_pdf) (lit "image/") = false
  /\ ReceiptUpload.deliver (ReceiptUpload.PointerDrop [report_pdf]) idle = (idle, [])
  /\ ReceiptUpload.deliver (ReceiptUpload.PickerChange [report_pdf]) idle =
       ({| ReceiptUpload.dragActive := false;
           ReceiptUpload.selectedFile := Some report_pdf |}, [report_pdf]).
Proof. repeat split. Qed.

(** C5. Every run of the extraction flow sets the analyzing flag to true
    first and to false last, touches it nowhere in between, returns normally
    and leaves the flag false, whichever of the collaborators fails and
    whatever the AI replies. *)
Theorem analyzing_flag_reset blink file st :
  let o := run (analyzeReceipt blink file) st in
  result o = inr tt
  /\ isAnalyzing (final o) = false
  /\ exists mid,
       events o = SetIsAnalyzing true :: mid ++ [SetIsAnalyzing false]
       /\ forallb (fun ev => negb (is_flag ev)) mid = true.
Proof.
  destruct (analyze_paths blink file)
    as [[e H]|(url & Hu & [[e H]|(text & Hg & [[e H]|[v H]])])].
  - rewrite (analyze_upload_rejected _ _ _ _ H). cbn [result final events].
    repeat split.
    exists (StorageUpload file (upload_path file) true :: analysis_failure_events e).
    split; reflexivity.
  - rewrite (analyze_completion_rejected _ _ _ _ _ Hu H). cbn [result final events].
    repeat split.
    exists ([StorageUpload file (upload_path file) true;
             AiGenerateText (Messages instruction url)] ++ analysis_failure_events e).
    split; reflexivity.
  - rewrite (analyze_not_normalized _ _ _ _ _ _ Hu Hg H). cbn [result final events].
    repeat split.
    exists ([StorageUpload file (upload_path file) true;
             AiGenerateText (Messages instruction url)] ++ parse_failure_events e text).
    split; reflexivity.
  - rewrite (analyze_published _ _ _ _ _ _ Hu Hg H). cbn [result final events].
    repeat split.
    exists ([StorageUpload file (upload_path file) true;
             AiGenerateText (Messages instruction url); SetReceiptData v]
            ++ persistence_events blink (user st) v url ++ notification_events v text).
    split; [now rewrite <- !app_assoc|].
    split_events; reflexivity.
Qed.

(** C6 (amended). When normalization succeeds, the row for the database can
    be built, the [create] call is rejected and the text of the notification
    can be built from the record (as it can whenever [merchant] is a string
    and [items] is an array), the rejection is logged as a warning and
    swallowed: the record is published, the success notification with the
    item count and the merchant is emitted, no failure notification is, and
    the run returns normally. *)
Theorem persistence_failure_swallowed
  blink file st publicUrl text v row e d :
  storage_upload blink file (upload_path file) true = inr publicUrl ->
  ai_generateText blink (Messages instruction publicUrl) = inr text ->
  normalize text = inr v ->
  receipt_row (user st) v publicUrl (clock blink) = inr row ->
  db_receipts_create blink row = inl e ->
  success_description v = inr d ->
  run (analyzeReceipt blink file) st =
    {| result := inr tt;
       final := {| user := user st; loading := loading st;
                   receiptData := Some v; isAnalyzing := false |};
       events := [SetIsAnalyzing true;
                  StorageUpload file (upload_path file) true;
                  AiGenerateText (Messages instruction publicUrl);
                  SetReceiptData v;
                  DbReceiptsCreate row;
                  ConsoleWarn store_failed (LogExn e);
                  Toast (success_toast d);
                  SetIsAnalyzing false] |}.
Proof.
  intros Hu Hg Hn Hrow Hdb Hd.
  rewrite (analyze_published _ _ _ _ _ _ Hu Hg Hn).
  unfold persistence_events, notification_events. rewrite Hrow, Hdb, Hd.
  reflexivity.
Qed.

Lemma persistence_failure_witness :
  let blink := collaborators (inr url) (inr corner_store_reply) (inl db_down) in
  let o := run (analyzeReceipt blink receipt_jpg) signed_in in
  (exists row, In (DbReceiptsCreate row) (events o)
               /\ db_receipts_create blink row = inl db_down)
  /\ result o = inr tt
  /\ receiptData (final o) = JSON.parse corner_store
  /\ In (ConsoleWarn store_failed (LogExn db_down)) (events o)
  /\ In (Toast (success_toast
                  [Chars (lit "Found "); NumberToString (number_of_nat 2);
                   Chars (lit " items from "); Chars (lit "Corner Store")]))
        (events o).
Proof.
  intros blink o.
  destruct (normalize corner_store_reply) as [|v] eqn:Hn;
    [vm_compute in Hn; discriminate|].
  destruct (receipt_row (user signed_in) v url (clock blink)) as [|row] eqn:Hrow;
    [vm_compute in Hn; injection Hn as <-; vm_compute in Hrow; discriminate|].
  assert (Hd : success_description v =
               inr [Chars (lit "Found "); NumberToString (number_of_nat 2);
                    Chars (lit " items from "); Chars (lit "Corner Store")]).
  { vm_compute in Hn. injection Hn as <-. vm_compute. reflexivity. }
  pose proof (persistence_failure_swallowed blink receipt_jpg signed_in url
                corner_store_reply v row db_down _
                eq_refl eq_refl Hn Hrow eq_refl Hd) as Hrun.
  subst o. rewrite Hrun. cbn [events final result].
  split; [exists row; split; [pick|reflexivity]|].
  split; [reflexivity|].
  split; [vm_compute in Hn; injection Hn as <-; vm_compute; reflexivity|].
  split; pick.
Defined.

(** C6 as stated fails: a reply whose [merchant] is an object with an own
    [toString] passes validation and is published, the [create] call is
    rejected, and the template literal of the success notification throws;
    the inner [catch] then reports a parse failure instead. *)
Lemma persistence_failure_counterexample :
  let blink := collaborators (inr url) (inr odd_merchant) (inl db_down) in
  let o := run (analyzeReceipt blink receipt_jpg) signed_in in
  (exists v row,
      normalize odd_merchant = inr v
      /\ receipt_row (user signed_in) v url (clock blink) = inr row
      /\ db_receipts_create blink row = inl db_down
      /\ receiptData (final o) = Some v)
  /\ (forall d, ~ In (Toast (success_toast d)) (events o))
  /\ In (Toast parse_failure_toast) (events o).
Proof.
  intros blink o.
  split; [|split].
  - vm_compute. eexists. eexists. repeat split.
  - intros d. vm_compute. intuition discriminate.
  - vm_compute. pick.
Qed.

(** C7. In every run the upload comes before any completion call and the
    completion call before any publication; the completion call is made with
    the URL the upload resolved to, and what is published is the
    normalization of the text the completion resolved to. When the upload is
    rejected no completion call is made, the failure notification is shown
    and the analyzing flag ends false. *)
Theorem extraction_steps_sequential blink file st :
  let o := run (analyzeReceipt blink file) st in
  precedes is_upload is_completion (events o)
  /\ precedes is_completion is_publication (events o)
  /\ (forall req, In (AiGenerateText req) (events o) ->
        exists publicUrl,
          storage_upload blink file (upload_path file) true = inr publicUrl
          /\ req = Messages instruction publicUrl)
  /\ (forall v, In (SetReceiptData v) (events o) ->
        exists publicUrl text,
          storage_upload blink file (upload_path file) true = inr publicUrl
          /\ ai_generateText blink (Messages instruction publicUrl) = inr text
          /\ normalize text = inr v)
  /\ (forall e, storage_upload blink file (upload_path file) true = inl e ->
        (forall req, ~ In (AiGenerateText req) (events o))
        /\ In (Toast analysis_failure_toast) (events o)
        /\ isAnalyzing (final o) = false).
Proof.
  cbv zeta.
  destruct (analyze_paths blink file)
    as [[e H]|(url & Hu & [[e H]|(text & Hg & [[e H]|[v H]])])].
  - rewrite (analyze_upload_rejected _ _ _ _ H). cbn [events final].
    split; [apply ordered_precedes; reflexivity|].
    split; [apply ordered_precedes; reflexivity|].
    split; [intros req Hin; exfalso; revert req Hin; apply no_completion; reflexivity|].
    split; [intros v Hin; exfalso; revert v Hin; apply not_published; reflexivity|].
    intros e' _. split; [apply no_completion; reflexivity|]. split; [pick|reflexivity].
  - rewrite (analyze_completion_rejected _ _ _ _ _ Hu H). cbn [events final].
    split; [apply ordered_precedes; reflexivity|].
    split; [apply ordered_precedes; reflexivity|].
    split.
    { intros req Hin. exists url. split; [exact Hu|].
      unfold analysis_failure_events, parse_failure_events in Hin.
      cbn [In List.app] in Hin. intuition congruence. }
    split; [intros v Hin; exfalso; revert v Hin; apply not_published; reflexivity|].
    intros e' He'. congruence.
  - rewrite (analyze_not_normalized _ _ _ _ _ _ Hu Hg H). cbn [events final].
    split; [apply ordered_precedes; reflexivity|].
    split; [apply ordered_precedes; reflexivity|].
    split.
    { intros req Hin. exists url. split; [exact Hu|].
      unfold analysis_failure_events, parse_failure_events in Hin.
      cbn [In List.app] in Hin. intuition congruence. }
    split; [intros v Hin; exfalso; revert v Hin; apply not_published; reflexivity|].
    intros e' He'. congruence.
  - rewrite (analyze_published _ _ _ _ _ _ Hu Hg H). cbn [events final].
    split; [apply ordered_precedes; split_events; reflexivity|].
    split; [apply ordered_precedes; split_events; reflexivity|].
    split.
    { intros req Hin. exists url. split; [exact Hu|].
      revert Hin. split_events; cbn [In List.app]; intuition congruence. }
    split.
    { intros v' Hin. exists url, text. split; [exact Hu|]. split; [exact Hg|].
      revert Hin. split_events; cbn [In List.app]; intuition congruence. }
    intros e' He'. congruence.
Qed.

Lemma extraction_steps_witness :
  let blink := collaborators (inl storage_down) (inr corner_store_reply) (inr tt) in
  let o := run (analyzeReceipt blink receipt_jpg) signed_in in
  storage_upload blink receipt_jpg (upload_path receipt_jpg) true = inl storage_down
  /\ (forall req, ~ In (AiGenerateText req) (events o))
  /\ In (Toast analysis_failure_toast) (events o)
  /\ isAnalyzing (final o) = false.
Proof.
  intros blink o. split; [reflexivity|].
  exact (proj2 (proj2 (proj2 (proj2
           (extraction_steps_sequential blink receipt_jpg signed_in))))
           storage_down eq_refl).
Defined.

(** C8. Without a record the bridge returns the fixed instruction, changes
    nothing and produces no event: no collaborator is called. *)
Theorem chat_without_record blink message st :
  receiptData st = None ->
  run (handleChatMessage blink message) st =
    {| result := inr upload_first; final := st; events := [] |}.
Proof.
  intros H. run_flow. rewrite H. reflexivity.
Qed.

Lemma chat_without_record_witness :
  receiptData signed_in = None
  /\ run (handleChatMessage (collaborators (inr url) (inr corner_store_reply) (inr tt))
            (lit "How much did I spend on dairy?")) signed_in =
       {| result := inr upload_first; final := signed_in; events := [] |}.
Proof.
  split; [reflexivity|].
  apply chat_without_record. reflexivity.
Defined.

(** C10. A parsed object that holds all three required keys, with the empty
    string as [merchant] or a zero as [total], fails validation: the flow
    reports a parse failure and publishes nothing. *)
Theorem falsy_required_field_rejected
  blink file st publicUrl text props m t i :
  storage_upload blink file (upload_path file) true = inr publicUrl ->
  ai_generateText blink (Messages instruction publicUrl) = inr text ->
  JSON.parse (cleaned text) = Some (JObject props) ->
  lookup (lit "merchant") props = Some m ->
  lookup (lit "total") props = Some t ->
  lookup (lit "items") props = Some i ->
  (m = JString [] \/ exists s, t = JNumber (S754_zero s)) ->
  let o := run (analyzeReceipt blink file) st in
  normalize text = inl missing_fields
  /\ events o =
       [SetIsAnalyzing true; StorageUpload file (upload_path file) true;
        AiGenerateText (Messages instruction publicUrl)]
       ++ parse_failure_events missing_fields text ++ [SetIsAnalyzing false]
  /\ receiptData (final o) = receiptData st
  /\ (forall v, ~ In (SetReceiptData v) (events o)).
Proof.
  intros Hu Hg Hp Hm Ht Hi Hfalsy. cbv zeta.
  assert (Hn : normalize text = inl missing_fields).
  { unfold normalize, JSON_parse, validate, cbind. rewrite Hp.
    rewrite missing_required_object. unfold own_or_undefined.
    rewrite Hm, Ht, Hi.
    destruct Hfalsy as [->|[s ->]]; cbn [ToBoolean number_truthy];
      rewrite ?andb_false_r; reflexivity. }
  rewrite (analyze_not_normalized _ _ _ _ _ _ Hu Hg Hn). cbn [events final].
  split; [exact Hn|]. split; [reflexivity|]. split; [reflexivity|].
  apply not_published. reflexivity.
Qed.

Lemma falsy_required_field_witness :
  let blink := collaborators (inr url) (inr free_lunch) (inr tt) in
  JSON.parse (cleaned free_lunch) =
    Some (JObject [(lit "merchant", JString (lit "Shop"));
                   (lit "total", JNumber zero);
                   (lit "items", JArray [])])
  /\ normalize free_lunch = inl missing_fields
  /\ receiptData (final (run (analyzeReceipt blink receipt_jpg) signed_in)) = None.
Proof.
  intros blink.
  assert (Hp : JSON.parse (cleaned free_lunch) =
               Some (JObject [(lit "merchant", JString (lit "Shop"));
                              (lit "total", JNumber zero);
                              (lit "items", JArray [])]))
    by (vm_compute; reflexivity).
  split; [exact Hp|].
  destruct (falsy_required_field_rejected blink receipt_jpg signed_in url free_lunch
              _ (JString (lit "Shop")) (JNumber zero) (JArray [])
              eq_refl eq_refl Hp eq_refl eq_refl eq_refl)
    as (Hn & _ & Hstore & _).
  - right. exists false. reflexivity.
  - split; [exact Hn|exact Hstore].
Defined.

Import ReceiptAnalysis.

Lemma and_number_truthy (x : number) (e : number -> VNode) :
  number_truthy x = true -> and_number (Some x) e = [e x].
Proof. intros H. unfold and_number. now rewrite H. Qed.

(** C9 (amended). For a populated record the card ends with the totals
    breakdown, and the breakdown ends with the separator and the total line.
    Before them it holds the subtotal line when the subtotal is present and
    truthy (neither zero nor NaN) and the tax line when the tax is present
    and truthy; an absent field gives no line. *)
Theorem totals_lines_when_truthy (data : ReceiptData) :
  exists before lines,
    ReceiptAnalysis (Some data) false =
      Element "Card"
        [Element "CardHeader"
           [Element "CardTitle"
              [Element "Receipt" []; Element "span" [str "Receipt Analysis"]]];
         Element "CardContent"
           (before ++ [Element "div" [Element "div" (totals_breakdown data)]])]
    /\ totals_breakdown data = lines ++ [separator; total_line data]
    /\ (forall x, subtotal data = Some x -> number_truthy x = true ->
                  In (subtotal_line x) lines)
    /\ (forall x, tax data = Some x -> number_truthy x = true ->
                  In (tax_line x) lines)
    /\ (subtotal data = None -> forall x, ~ In (subtotal_line x) lines)
    /\ (tax data = None -> forall x, ~ In (tax_line x) lines).
Proof.
  exists ([summary_cards data] ++ category_badge data ++ [items_list data]).
  exists (and_number (subtotal data) subtotal_line ++ and_number (tax data) tax_line).
  split.
  { cbn [ReceiptAnalysis populated]. now rewrite <- !app_assoc. }
  split; [unfold totals_breakdown; now rewrite <- app_assoc|].
  split; [|split; [|split]].
  - intros x -> Hx. rewrite (and_number_truthy _ _ Hx). now left.
  - intros x -> Hx. rewrite (and_number_truthy _ _ Hx).
    apply in_or_app. right. now left.
  - intros -> x Hin. cbn [and_number List.app] in Hin.
    unfold and_number in Hin. destruct (tax data) as [t|]; [|exact Hin].
    destruct (number_truthy t); destruct Hin as [Hin|[]]; discriminate.
  - intros -> x Hin. rewrite app_nil_r in Hin.
    unfold and_number in Hin. destruct (subtotal data) as [s|]; [|exact Hin].
    destruct (number_truthy s); destruct Hin as [Hin|[]]; discriminate.
Qed.

Lemma totals_lines_witness :
  subtotal tax_free = Some one /\ number_truthy one = true
  /\ In (subtotal_line one) (totals_breakdown tax_free).
Proof.
  split; [reflexivity|]. split; [reflexivity|].
  destruct (totals_lines_when_truthy tax_free) as (before & lines & _ & E & Hsub & _).
  rewrite E. apply in_or_app. left. apply Hsub; reflexivity.
Defined.

(** C9 as stated fails: a tax of zero is present and no tax line is
    rendered. *)
Lemma totals_lines_counterexample :
  tax tax_free = Some zero
  /\ ~ In (tax_line zero) (totals_breakdown tax_free)
  /\ totals_breakdown tax_free =
       [subtotal_line one; Text [NumberToString zero]; separator; total_line tax_free].
Proof.
  split; [reflexivity|]. split; [|reflexivity].
  cbn. intuition discriminate.
Qed.

(* ================================================================== *)
(** * Further properties of the code *)
(* ================================================================== *)

Import Observe AppShell MoreScenarios.

(** ** Helper facts *)

Lemma normalized_is_valid text v : normalize text = inr v -> valid_record v.
Proof.
  intros H. destruct (normalize_inr _ _ H) as [_ Hv].
  split; [exact (validated_is_object _ _ Hv)|].
  apply (validate_truthy v v) in Hv. tauto.
Qed.

Lemma analyze_store blink file st :
  let o := run (analyzeReceipt blink file) st in
  user (final o) = user st
  /\ loading (final o) = loading st
  /\ (forall v, In (SetReceiptData v) (events o) ->
        valid_record v /\ receiptData (final o) = Some v)
  /\ ((forall v, ~ In (SetReceiptData v) (events o)) ->
        receiptData (final o) = receiptData st).
Proof.
  cbv zeta.
  destruct (analyze_paths blink file)
    as [[e H]|(url & Hu & [[e H]|(text & Hg & [[e H]|[v H]])])].
  - rewrite (analyze_upload_rejected _ _ _ _ H). cbn [events final].
    split; [reflexivity|]. split; [reflexivity|].
    split; [intros v Hin; exfalso; revert v Hin; apply not_published; reflexivity|].
    reflexivity.
  - rewrite (analyze_completion_rejected _ _ _ _ _ Hu H). cbn [events final].
    split; [reflexivity|]. split; [reflexivity|].
    split; [intros v Hin; exfalso; revert v Hin; apply not_published; reflexivity|].
    reflexivity.
  - rewrite (analyze_not_normalized _ _ _ _ _ _ Hu Hg H). cbn [events final].
    split; [reflexivity|]. split; [reflexivity|].
    split; [intros v Hin; exfalso; revert v Hin; apply not_published; reflexivity|].
    reflexivity.
  - rewrite (analyze_published _ _ _ _ _ _ Hu Hg H). cbn [events final].
    pose proof (normalized_is_valid _ _ H) as Hv.
    split; [reflexivity|]. split; [reflexivity|].
    split.
    { intros v' Hin.
      assert (v' = v) as ->.
      { revert Hin. split_events; cbn [In List.app]; intuition congruence. }
      split; [exact Hv|reflexivity]. }
    intros Hno. exfalso. apply (Hno v). cbn [In List.app]. auto.
Qed.

Lemma receipt_row_fields u v publicUrl now row :
  receipt_row u v publicUrl now = inr row ->
  exists who merchant date total subtotal tax items category,
    u = Some who
    /\ Get v (lit "merchant") = inr merchant
    /\ Get v (lit "date") = inr date
    /\ Get v (lit "total") = inr total
    /\ Get v (lit "subtotal") = inr subtotal
    /\ Get v (lit "tax") = inr tax
    /\ Get v (lit "items") = inr items
    /\ Get v (lit "category") = inr category
    /\ row = {| row_userId := id who;
                row_merchant := merchant;
                row_date := date;
                row_total := total;
                row_subtotal := or_else subtotal (JNumber zero);
                row_tax := or_else tax (JNumber zero);
                row_items := JSON_stringify items;
                row_category := or_else category (JString (lit "Other"));
                row_imageUrl := publicUrl;
                row_createdAt := now |}.
Proof.
  unfold receipt_row, cbind.
  destruct u as [who|]; [|discriminate].
  destruct (Get v (lit "merchant")) as [|merchant]; [discriminate|].
  destruct (Get v (lit "date")) as [|date]; [discriminate|].
  destruct (Get v (lit "total")) as [|total]; [discriminate|].
  destruct (Get v (lit "subtotal")) as [|subtotal]; [discriminate|].
  destruct (Get v (lit "tax")) as [|tax]; [discriminate|].
  destruct (Get v (lit "items")) as [|items]; [discriminate|].
  destruct (Get v (lit "category")) as [|category]; [discriminate|].
  intros H. injection H as <-.
  exists who, merchant, date, total, subtotal, tax, items, category.
  repeat split.
Qed.

Lemma or_else_default v d :
  ToBoolean d = true -> ToBoolean (or_else v d) = true.
Proof. intros H. unfold or_else. destruct (ToBoolean v) eqn:E; assumption. Qed.

Lemma or_else_cases v d : (or_else v d = v /\ ToBoolean v = true) \/ or_else v d = d.
Proof. unfold or_else. destruct (ToBoolean v); auto. Qed.

Lemma items_summary_not_array items :
  (forall xs, items <> JArray xs) -> items_summary items = inl TypeError.
Proof. destruct items; try reflexivity. intros H. now destruct (H xs). Qed.

Lemma chat_prompt_not_array props message items :
  lookup (lit "items") props = Some items ->
  (forall xs, items <> JArray xs) ->
  exists e, chat_prompt (JObject props) message = inl e.
Proof.
  intros Hi Hna. unfold chat_prompt, cbind.
  cbn [Get].
  destruct (ToString (own_or_undefined (lit "merchant") props)); [eauto|].
  destruct (ToString (own_or_undefined (lit "date") props)); [eauto|].
  destruct (ToString (own_or_undefined (lit "total") props)); [eauto|].
  unfold own_or_undefined at 1. rewrite Hi.
  rewrite (items_summary_not_array items Hna). eauto.
Qed.

Lemma valid_record_truthy v : valid_record v -> ToBoolean v = true.
Proof. intros [[props ->] _]. reflexivity. Qed.

Lemma map_items_typed xs lines :
  Forall2 (fun x line => item_of x (fst line) (snd line)) xs lines ->
  map_items xs = inr (List.map item_text lines).
Proof.
  induction 1 as [|x line xs lines (props & -> & Hn & Hp) _ IH]; [reflexivity|].
  cbn [map_items]. unfold item_line, cbind. cbn [Get]. unfold own_or_undefined.
  rewrite Hn, Hp. cbn [ToString]. rewrite IH. reflexivity.
Qed.

Lemma pointer_step_keeps_images ev st :
  shows_image_or_nothing st ->
  shows_image_or_nothing (fst (pointer_step ev st))
  /\ Forall is_image (snd (pointer_step ev st)).
Proof.
  intros H. destruct ev as [type|files|].
  - destruct type; split; try exact H; constructor.
  - destruct files as [|f rest]; [split; [exact H|constructor]|].
    cbn [pointer_step ReceiptUpload.handleDrop].
    destruct (startsWith (file_type f) (lit "image/")) eqn:E.
    + split; [exact E|]. constructor; [exact E|constructor].
    + split; [exact H|constructor].
  - split; [exact I|constructor].
Qed.

Lemma analyze_returns blink file st : result (run (analyzeReceipt blink file) st) = inr tt.
Proof.
  destruct (analyze_paths blink file)
    as [[e H]|(url & Hu & [[e H]|(text & Hg & [[e H]|[v H]])])].
  - now rewrite (analyze_upload_rejected _ _ _ _ H).
  - now rewrite (analyze_completion_rejected _ _ _ _ _ Hu H).
  - now rewrite (analyze_not_normalized _ _ _ _ _ _ Hu Hg H).
  - now rewrite (analyze_published _ _ _ _ _ _ Hu Hg H).
Qed.

Lemma run_single blink file st :
  run (onUpload_all blink [file]) st = run (analyzeReceipt blink file) st.
Proof.
  pose proof (analyze_returns blink file st) as H. revert H.
  cbv [run onUpload_all bind ret].
  destruct (analyzeReceipt blink file _) as [[e|[]] w]; cbn [result]; [discriminate|].
  reflexivity.
Qed.

Lemma not_json_ws (c : char16) : is_space c = false -> is_json_ws c = false.
Proof.
  intros H. destruct (is_json_ws c) eqn:E; [|reflexivity].
  apply json_ws_is_space in E. congruence.
Qed.

Lemma parse_number_not_started (c : char16) (r : jsstring) :
  (c =? 45) = false -> is_digit c = false -> parse_number (c :: r) = None.
Proof.
  intros Hm Hd. unfold parse_number. rewrite Hm.
  assert (H48 : (c =? 48) = false).
  { destruct (c =? 48) eqn:E; [|reflexivity].
    apply N.eqb_eq in E. subst c. discriminate. }
  rewrite H48, Hd. reflexivity.
Qed.

Lemma parse_not_a_value (c : char16) (r : jsstring) :
  is_space c = false -> value_start c = false -> JSON.parse (c :: r) = None.
Proof.
  intros Hs Hv. unfold value_start in Hv.
  repeat (apply orb_false_iff in Hv as [Hv ?]).
  unfold JSON.parse. cbn [length parse_value skip_ws].
  rewrite (not_json_ws c Hs).
  repeat match goal with H : (c =? _) = false |- _ => rewrite H; clear H end.
  rewrite parse_number_not_started by assumption. reflexivity.
Qed.

Lemma strip_fences_other (c : char16) (r : jsstring) :
  c <> 96 -> strip_fences (c :: r) = c :: r.
Proof.
  intros H. unfold strip_fences, startsWith.
  change (lit "```json") with (96 :: lit "``json").
  change (lit "```") with (96 :: lit "``").
  cbn [strip_prefix].
  assert (E : (96 =? c) = false) by (apply N.eqb_neq; congruence).
  rewrite E. reflexivity.
Qed.

Lemma trimStart_split (s : jsstring) :
  exists ws, s = ws ++ trimStart s /\ spaces ws.
Proof.
  induction s as [|c s (ws & Hs & Hws)].
  - exists []. split; [reflexivity|constructor].
  - simpl. destruct (is_space c) eqn:Hc.
    + exists (c :: ws). split; [now rewrite Hs at 1|now constructor].
    + exists []. split; [reflexivity|constructor].
Qed.

(** Without a final fence the closing expression matches nowhere. *)
Lemma replace_close_no_fence (pre s : jsstring) :
  (forall p, pre ++ s <> p ++ fence) -> replace_close s = s.
Proof.
  revert pre. induction s as [|c s IH]; intros pre H; [reflexivity|].
  cbn [replace_close].
  destruct (matches_close (c :: s)) eqn:E.
  - exfalso. unfold matches_close in E. apply str_eqb_eq in E.
    destruct (trimStart_split (c :: s)) as (ws & Hs & _).
    rewrite E in Hs. apply (H (pre ++ ws)). rewrite Hs at 1. now rewrite app_assoc.
  - f_equal. apply (IH (pre ++ [c])). intros p. rewrite <- app_assoc. apply H.
Qed.

Lemma braces_end_without_fence (mid : jsstring) p :
  123 :: mid ++ [125] <> p ++ fence.
Proof.
  intros E. apply (f_equal (@rev _)) in E.
  rewrite rev_app_distr in E. cbn [rev List.app] in E.
  rewrite rev_app_distr in E. discriminate.
Qed.

Lemma trimEnd_suffix (s : jsstring) : trimEnd s = s -> trimEnd (trimStart s) = trimStart s.
Proof.
  induction s as [|c s IH]; [reflexivity|].
  intros H. cbn [trimStart]. destruct (is_space c); [|exact H].
  apply IH. simpl in H. destruct (trimEnd s) as [|x r] eqn:E.
  - destruct (is_space c); [discriminate|]. now injection H as <-.
  - now injection H.
Qed.

Lemma trim_commutes (t : jsstring) : trimStart (trimEnd t) = trim t.
Proof.
  unfold trim. destruct (trimEnd_split t) as (ws & Ht & Hws).
  destruct (trimStart (trimEnd t)) as [|c r] eqn:E.
  - apply trimStart_nil_spaces in E.
    rewrite Ht, trimStart_spaces by assumption.
    rewrite trimStart_all_spaces by assumption. reflexivity.
  - rewrite Ht at 1. rewrite trimStart_app by congruence.
    rewrite trimEnd_spaces by assumption.
    rewrite <- E. symmetry. apply trimEnd_suffix, trimEnd_idem.
Qed.

Lemma trim_unclosed (F w t : jsstring) :
  trimStart F = F -> F <> [] -> spaces w -> trim t <> [] ->
  trim (F ++ w ++ t) = F ++ w ++ trimEnd t.
Proof.
  intros HF Hne Hw Ht. unfold trim at 1.
  rewrite trimStart_app by congruence. rewrite HF.
  rewrite app_assoc, trimEnd_app_keep; [now rewrite <- app_assoc|].
  intros E. apply Ht. rewrite <- trim_commutes, E. reflexivity.
Qed.

(** ** The extraction flow *)

(** X1. Every run of the extraction flow shows exactly one notification and
    makes exactly one upload call, at most one completion call, at most one
    publication and at most one [create] call. *)
Theorem one_notification_per_run blink file st :
  let o := run (analyzeReceipt blink file) st in
  count is_toast (events o) = 1%nat
  /\ count is_upload (events o) = 1%nat
  /\ (count is_completion (events o) <= 1)%nat
  /\ (count is_publication (events o) <= 1)%nat
  /\ (count is_create (events o) <= 1)%nat.
Proof.
  cbv zeta.
  destruct (analyze_paths blink file)
    as [[e H]|(url & Hu & [[e H]|(text & Hg & [[e H]|[v H]])])].
  - rewrite (analyze_upload_rejected _ _ _ _ H). cbn [events].
    repeat split; apply Nat.leb_le; reflexivity.
  - rewrite (analyze_completion_rejected _ _ _ _ _ Hu H). cbn [events].
    repeat split; apply Nat.leb_le; reflexivity.
  - rewrite (analyze_not_normalized _ _ _ _ _ _ Hu Hg H). cbn [events].
    repeat split; apply Nat.leb_le; reflexivity.
  - rewrite (analyze_published _ _ _ _ _ _ Hu Hg H). cbn [events].
    split_events; repeat split; apply Nat.leb_le; reflexivity.
Qed.

(** X2. A run never changes the signed-in user or the loading flag. Whatever
    it publishes is an object whose [merchant], [total] and [items] are
    truthy, and is then the record of the final state; a run that publishes
    nothing leaves the record as it was. So a store that is empty or holds
    such a record stays so. *)
Theorem run_keeps_store_valid blink file st :
  let o := run (analyzeReceipt blink file) st in
  user (final o) = user st
  /\ loading (final o) = loading st
  /\ (forall v, In (SetReceiptData v) (events o) ->
        valid_record v /\ receiptData (final o) = Some v)
  /\ ((forall v, ~ In (SetReceiptData v) (events o)) ->
        receiptData (final o) = receiptData st)
  /\ (store_ok st -> store_ok (final o)).
Proof.
  cbv zeta.
  destruct (analyze_store blink file st) as (Hu & Hl & Hpub & Hkeep).
  repeat (split; [assumption|]).
  intros Hok. unfold store_ok.
  destruct (receiptData (final (run (analyzeReceipt blink file) st))) as [v|] eqn:E;
    [|exact I].
  destruct (analyze_paths blink file)
    as [[e H]|(url & Hup & [[e H]|(text & Hg & [[e H]|[v' H]])])].
  - rewrite (analyze_upload_rejected _ _ _ _ H) in E. cbn in E.
    unfold store_ok in Hok. now rewrite E in Hok.
  - rewrite (analyze_completion_rejected _ _ _ _ _ Hup H) in E. cbn in E.
    unfold store_ok in Hok. now rewrite E in Hok.
  - rewrite (analyze_not_normalized _ _ _ _ _ _ Hup Hg H) in E. cbn in E.
    unfold store_ok in Hok. now rewrite E in Hok.
  - rewrite (analyze_published _ _ _ _ _ _ Hup Hg H) in E. cbn in E.
    injection E as <-. exact (normalized_is_valid _ _ H).
Qed.

Lemma run_keeps_store_valid_witness :
  let blink := collaborators (inr url) (inr corner_store_reply) (inr tt) in
  store_ok signed_in
  /\ store_ok (final (run (analyzeReceipt blink receipt_jpg) signed_in)).
Proof.
  intros blink.
  assert (H0 : store_ok signed_in) by exact I.
  split; [exact H0|].
  exact (proj2 (proj2 (proj2 (proj2
           (run_keeps_store_valid blink receipt_jpg signed_in)))) H0).
Defined.

(** X3. When the upload succeeds and the completion call is rejected, the
    rejection is logged, the generic failure notification is shown, nothing
    is parsed, published or persisted, the record is left as it was and the
    analyzing flag ends false. *)
Theorem completion_failure_leaves_store_unchanged blink file st publicUrl e :
  storage_upload blink file (upload_path file) true = inr publicUrl ->
  ai_generateText blink (Messages instruction publicUrl) = inl e ->
  run (analyzeReceipt blink file) st =
    {| result := inr tt;
       final := {| user := user st; loading := loading st;
                   receiptData := receiptData st; isAnalyzing := false |};
       events := [SetIsAnalyzing true;
                  StorageUpload file (upload_path file) true;
                  AiGenerateText (Messages instruction publicUrl);
                  ConsoleError (lit "Receipt analysis failed:") (LogExn e);
                  Toast analysis_failure_toast;
                  SetIsAnalyzing false] |}.
Proof.
  intros Hu Hg. rewrite (analyze_completion_rejected _ _ _ _ _ Hu Hg). reflexivity.
Qed.

Lemma completion_failure_witness :
  let blink := collaborators (inr url) (inl ai_down) (inr tt) in
  let o := run (analyzeReceipt blink receipt_jpg) signed_in in
  ai_generateText blink (Messages instruction url) = inl ai_down
  /\ receiptData (final o) = None
  /\ In (Toast analysis_failure_toast) (events o).
Proof.
  intros blink o. split; [reflexivity|].
  subst o.
  rewrite (completion_failure_leaves_store_unchanged blink receipt_jpg signed_in
             url ai_down eq_refl eq_refl).
  split; [reflexivity|pick].
Defined.

(** X4. Once a record is normalized and its notification text can be built,
    what the user sees does not depend on persistence: apart from the
    [create] call and the warning, the run has the same events, with the
    success notification and no failure notification, whether the row cannot
    be built, the call is rejected or it succeeds. *)
Theorem notification_independent_of_persistence blink file st publicUrl text v d :
  storage_upload blink file (upload_path file) true = inr publicUrl ->
  ai_generateText blink (Messages instruction publicUrl) = inr text ->
  normalize text = inr v ->
  success_description v = inr d ->
  let o := run (analyzeReceipt blink file) st in
  result o = inr tt
  /\ receiptData (final o) = Some v
  /\ filter (fun ev => negb (is_create ev || is_warning ev)) (events o) =
       [SetIsAnalyzing true;
        StorageUpload file (upload_path file) true;
        AiGenerateText (Messages instruction publicUrl);
        SetReceiptData v;
        Toast (success_toast d);
        SetIsAnalyzing false].
Proof.
  intros Hu Hg Hn Hd. cbv zeta.
  rewrite (analyze_published _ _ _ _ _ _ Hu Hg Hn). cbn [result final events].
  split; [reflexivity|]. split; [reflexivity|].
  unfold notification_events. rewrite Hd.
  unfold persistence_events.
  destruct (receipt_row _ _ _ _) as [e1|row]; [reflexivity|].
  destruct (db_receipts_create blink row) as [e1|[]]; reflexivity.
Qed.

Lemma notification_independent_witness :
  let ok := collaborators (inr url) (inr corner_store_reply) (inr tt) in
  let ko := collaborators (inr url) (inr corner_store_reply) (inl db_down) in
  let quiet := filter (fun ev => negb (is_create ev || is_warning ev)) in
  quiet (events (run (analyzeReceipt ok receipt_jpg) signed_in)) =
  quiet (events (run (analyzeReceipt ko receipt_jpg) signed_in)).
Proof.
  intros ok ko quiet.
  destruct (normalize corner_store_reply) as [|v] eqn:Hn;
    [vm_compute in Hn; discriminate|].
  destruct (success_description v) as [|d] eqn:Hd;
    [vm_compute in Hn; injection Hn as <-; vm_compute in Hd; discriminate|].
  destruct (notification_independent_of_persistence ok receipt_jpg signed_in url
              corner_store_reply v d eq_refl eq_refl Hn Hd) as (_ & _ & H1).
  destruct (notification_independent_of_persistence ko receipt_jpg signed_in url
              corner_store_reply v d eq_refl eq_refl Hn Hd) as (_ & _ & H2).
  subst quiet. cbv beta. rewrite H1, H2. reflexivity.
Defined.

(** X5. Whenever [create] is called, its row carries the id of the signed-in
    user, the URL the upload resolved to and the clock's timestamp; its
    merchant and total are the truthy fields of the published record and its
    items are serialized from the truthy [items]; subtotal and tax are either
    truthy or the default 0, and the category is truthy ([Other] when the
    record has none). *)
Theorem created_row_fields blink file st row :
  In (DbReceiptsCreate row) (events (run (analyzeReceipt blink file) st)) ->
  exists who publicUrl text v items,
    user st = Some who
    /\ storage_upload blink file (upload_path file) true = inr publicUrl
    /\ ai_generateText blink (Messages instruction publicUrl) = inr text
    /\ normalize text = inr v
    /\ row_userId row = id who
    /\ row_imageUrl row = publicUrl
    /\ row_createdAt row = clock blink
    /\ Get v (lit "merchant") = inr (row_merchant row)
    /\ ToBoolean (row_merchant row) = true
    /\ Get v (lit "total") = inr (row_total row)
    /\ ToBoolean (row_total row) = true
    /\ Get v (lit "items") = inr items
    /\ ToBoolean items = true
    /\ row_items row = JSON_stringify items
    /\ (row_subtotal row = JNumber zero \/ ToBoolean (row_subtotal row) = true)
    /\ (row_tax row = JNumber zero \/ ToBoolean (row_tax row) = true)
    /\ ToBoolean (row_category row) = true.
Proof.
  destruct (analyze_paths blink file)
    as [[e H]|(url & Hu & [[e H]|(text & Hg & [[e H]|[v H]])])].
  - rewrite (analyze_upload_rejected _ _ _ _ H). cbn. intuition discriminate.
  - rewrite (analyze_completion_rejected _ _ _ _ _ Hu H). cbn. intuition discriminate.
  - rewrite (analyze_not_normalized _ _ _ _ _ _ Hu Hg H). cbn. intuition discriminate.
  - rewrite (analyze_published _ _ _ _ _ _ Hu Hg H). cbn [events].
    intros Hin.
    assert (Hrow : receipt_row (user st) v url (clock blink) = inr row).
    { revert Hin. unfold persistence_events, notification_events, parse_failure_events.
      destruct (receipt_row _ _ _ _) as [e1|row'].
      - destruct (success_description v); cbn [In List.app]; intuition discriminate.
      - destruct (db_receipts_create blink row'); destruct (success_description v);
          cbn [In List.app]; intuition congruence. }
    destruct (receipt_row_fields _ _ _ _ _ Hrow)
      as (who & m & d & t & s & x & i & c & Hwho & Hm & Hd & Ht & Hs & Hx & Hi & Hc & Hr).
    subst row.
    destruct (normalized_is_valid _ _ H) as (_ & (m' & Hm' & Tm) & (t' & Ht' & Tt) & (i' & Hi' & Ti)).
    rewrite Hm in Hm'. injection Hm' as <-.
    rewrite Ht in Ht'. injection Ht' as <-.
    rewrite Hi in Hi'. injection Hi' as <-.
    exists who, url, text, v, i. cbn [row_userId row_imageUrl row_createdAt row_merchant
      row_total row_items row_subtotal row_tax row_category].
    repeat (split; [first [assumption | reflexivity]|]).
    split; [destruct (or_else_cases s (JNumber zero)) as [[-> ?]| ->]; auto|].
    split; [destruct (or_else_cases x (JNumber zero)) as [[-> ?]| ->]; auto|].
    apply or_else_default. reflexivity.
Qed.

Lemma created_row_witness :
  let blink := collaborators (inr url) (inr corner_store_reply) (inr tt) in
  exists row,
    In (DbReceiptsCreate row) (events (run (analyzeReceipt blink receipt_jpg) signed_in))
    /\ row_imageUrl row = url
    /\ row_category row = JString (lit "Other")
    /\ ToBoolean (row_merchant row) = true.
Proof.
  intros blink.
  assert (Hin : exists row,
             In (DbReceiptsCreate row)
                (events (run (analyzeReceipt blink receipt_jpg) signed_in))
             /\ row_category row = JString (lit "Other")).
  { vm_compute. eexists. split; [do 4 right; left; reflexivity|reflexivity]. }
  destruct Hin as (row & Hin & Hcat).
  exists row. split; [exact Hin|].
  destruct (created_row_fields blink receipt_jpg signed_in row Hin)
    as (who & u' & text & v & items & _ & Hu & _ & _ & _ & Himg & _ & _ & Hm & _).
  split; [|split; [exact Hcat|exact Hm]].
  rewrite Himg. vm_compute in Hu. injection Hu as <-. reflexivity.
Defined.

(** X6. When the reply parses to an object with a non-empty string
    [merchant], a truthy [total] and an array [items], the object is
    published and the only notification of the run is the success one, whose
    text gives the number of elements of the array (possibly 0) and the
    merchant. *)
Theorem typed_reply_is_announced blink file st publicUrl text props m xs t :
  storage_upload blink file (upload_path file) true = inr publicUrl ->
  ai_generateText blink (Messages instruction publicUrl) = inr text ->
  JSON.parse (cleaned text) = Some (JObject props) ->
  lookup (lit "merchant") props = Some (JString m) -> m <> [] ->
  lookup (lit "total") props = Some t -> ToBoolean t = true ->
  lookup (lit "items") props = Some (JArray xs) ->
  let o := run (analyzeReceipt blink file) st in
  receiptData (final o) = Some (JObject props)
  /\ filter is_toast (events o) =
       [Toast (success_toast
                 [Chars (lit "Found "); NumberToString (number_of_nat (length xs));
                  Chars (lit " items from "); Chars m])].
Proof.
  intros Hu Hg Hp Hm Hne Ht Htt Hi. cbv zeta.
  assert (Hn : normalize text = inr (JObject props)).
  { unfold normalize, JSON_parse, validate, cbind. rewrite Hp.
    rewrite missing_required_object. unfold own_or_undefined.
    rewrite Hm, Ht, Hi. cbn [ToBoolean]. rewrite Htt.
    destruct m; [congruence|reflexivity]. }
  rewrite (analyze_published _ _ _ _ _ _ Hu Hg Hn). cbn [final events].
  split; [reflexivity|].
  unfold notification_events.
  rewrite (success_description_typed props m xs Hm Hi).
  unfold persistence_events.
  destruct (receipt_row _ _ _ _) as [e1|row]; [reflexivity|].
  destruct (db_receipts_create blink row) as [e1|[]]; reflexivity.
Qed.

Lemma typed_reply_witness :
  let blink := collaborators (inr url) (inr no_items) (inr tt) in
  let o := run (analyzeReceipt blink receipt_jpg) signed_in in
  JSON.parse (cleaned no_items) <> None
  /\ filter is_toast (events o) =
       [Toast (success_toast
                 [Chars (lit "Found "); NumberToString (number_of_nat 0);
                  Chars (lit " items from "); Chars (lit "Shop")])].
Proof.
  intros blink o.
  destruct (JSON.parse (cleaned no_items)) as [[| | | | | |props]|] eqn:Hp;
    try (vm_compute in Hp; discriminate).
  split; [discriminate|].
  assert (Hprops : props = [(lit "merchant", JString (lit "Shop"));
                            (lit "total", JNumber (S754_finite false 5066549580791808 (-50)));
                            (lit "items", JArray [])]).
  { vm_compute in Hp. injection Hp as <-. reflexivity. }
  apply (typed_reply_is_announced blink receipt_jpg signed_in url no_items props
           (lit "Shop") [] (JNumber (S754_finite false 5066549580791808 (-50)))
           eq_refl eq_refl Hp); subst props; solve [reflexivity | discriminate].
Defined.

(** ** The Normalizer *)

(** X7. A text that is valid JSON once trimmed is never altered by the fence
    removal: the cleaned text is the trimmed text, and the Normalizer's
    result is the validation of the parsed value. *)
Theorem valid_json_is_only_trimmed (t : jsstring) (v : JSValue) :
  JSON.parse (trim t) = Some v ->
  cleaned t = trim t /\ normalize t = validate v.
Proof.
  intros Hp.
  assert (Hc : cleaned t = trim t).
  { unfold cleaned. destruct (trim t) as [|c r] eqn:E; [reflexivity|].
    apply strip_fences_other. intros ->.
    rewrite parse_not_a_value in Hp by reflexivity. discriminate. }
  split; [exact Hc|].
  unfold normalize, JSON_parse, cbind. now rewrite Hc, Hp.
Qed.

Lemma valid_json_witness :
  (exists v, JSON.parse (trim (nl ++ corner_store ++ nl)) = Some v)
  /\ cleaned (nl ++ corner_store ++ nl) = corner_store.
Proof.
  destruct (JSON.parse (trim (nl ++ corner_store ++ nl))) as [v|] eqn:E;
    [|vm_compute in E; discriminate].
  split; [eauto|].
  rewrite (proj1 (valid_json_is_only_trimmed _ v E)). reflexivity.
Defined.

(** X8. The two replacements are independent: an opening fence, with or
    without the [json] tag, is removed even when no closing fence follows.
    For a text that is brace-delimited once trimmed, the unclosed forms clean
    to the same text, and normalize to the same result, as the bare text. *)
Theorem unclosed_fence_is_tolerated (t w mid : jsstring) :
  spaces w -> trim t = 123 :: mid ++ [125] ->
  cleaned t = trim t
  /\ cleaned (lit "```json" ++ w ++ t) = trim t
  /\ cleaned (lit "```" ++ w ++ t) = trim t
  /\ normalize (lit "```json" ++ w ++ t) = normalize t
  /\ normalize (lit "```" ++ w ++ t) = normalize t.
Proof.
  intros Hw Ht.
  assert (Hne : trim t <> []) by (rewrite Ht; discriminate).
  assert (Hclose : replace_close (trim t) = trim t).
  { apply (replace_close_no_fence []). rewrite Ht. apply braces_end_without_fence. }
  assert (Hbare : cleaned t = trim t).
  { unfold cleaned. rewrite Ht. apply strip_fences_other. discriminate. }
  assert (Hrest : trimStart (w ++ trimEnd t) = trim t).
  { rewrite trimStart_spaces by assumption. apply trim_commutes. }
  assert (Hjson : cleaned (lit "```json" ++ w ++ t) = trim t).
  { unfold cleaned. rewrite trim_unclosed by (reflexivity || discriminate || assumption).
    unfold strip_fences, startsWith, replace_open. rewrite strip_prefix_app.
    now rewrite Hrest. }
  assert (Hgen : cleaned (lit "```" ++ w ++ t) = trim t).
  { unfold cleaned. rewrite trim_unclosed by (reflexivity || discriminate || assumption).
    unfold strip_fences, startsWith, replace_open.
    change (strip_prefix (lit "```json") (lit "```" ++ w ++ trimEnd t))
      with (strip_prefix (lit "json") (w ++ trimEnd t)).
    change (lit "json") with (106 :: lit "son").
    rewrite (no_language_tag (w ++ trimEnd t) (mid ++ [125]) _)
      by (now rewrite Hrest).
    rewrite strip_prefix_app. now rewrite Hrest. }
  repeat split; try assumption; unfold normalize; now rewrite ?Hjson, ?Hgen, Hbare.
Qed.

Lemma unclosed_fence_witness :
  (exists mid, trim corner_store = 123 :: mid ++ [125])
  /\ normalize (lit "```json" ++ nl ++ corner_store) = normalize corner_store.
Proof.
  assert (Hnl : spaces nl) by (repeat constructor).
  assert (Hshape : trim corner_store
                   = 123 :: removelast (List.tl (trim corner_store)) ++ [125])
    by (vm_compute; reflexivity).
  split; [eauto|].
  exact (proj1 (proj2 (proj2 (proj2
           (unclosed_fence_is_tolerated corner_store nl _ Hnl Hshape))))).
Defined.

(** X9. Fences are looked for only at the start of the trimmed text. When the
    first character after white space is neither a backquote nor the start
    of a JSON value (a sentence before the JSON, for instance), nothing is
    stripped and the Normalizer fails with the syntax error of [JSON.parse],
    whatever follows. *)
Theorem prose_before_json_is_rejected (t r : jsstring) (c : char16) :
  trimStart t = c :: r -> c <> 96 -> value_start c = false ->
  cleaned t = trim t /\ normalize t = inl SyntaxError.
Proof.
  intros Ht Hb Hv.
  pose proof (trimStart_head t c r Ht) as Hs.
  assert (Htrim : trim t = c :: trimEnd r).
  { unfold trim. rewrite Ht. now apply trimEnd_nonspace. }
  assert (Hc : cleaned t = trim t).
  { unfold cleaned. rewrite Htrim. now apply strip_fences_other. }
  split; [exact Hc|].
  unfold normalize, JSON_parse, cbind. rewrite Hc, Htrim.
  now rewrite parse_not_a_value.
Qed.

Lemma prose_before_json_witness :
  trimStart chatty_reply = 72 :: List.tl chatty_reply
  /\ normalize chatty_reply = inl SyntaxError.
Proof.
  split; [reflexivity|].
  apply (prose_before_json_is_rejected chatty_reply (List.tl chatty_reply) 72);
    [reflexivity|discriminate|reflexivity].
Defined.

(** X10. A reply that is valid JSON but not an object is rejected: an array, a
    string, a number or a boolean fails with the missing-fields error, and
    [null] fails with the [TypeError] of the property read. *)
Theorem reply_that_is_no_object_fails (text : jsstring) (v : JSValue) :
  JSON.parse (cleaned text) = Some v ->
  (forall props, v <> JObject props) ->
  normalize text =
    inl (match v with
         | JNull | JUndefined => TypeError
         | _ => missing_fields
         end).
Proof.
  intros Hp Hno. unfold normalize, JSON_parse, cbind. rewrite Hp.
  destruct v as [| |b|x|s|xs|props]; try reflexivity.
  now destruct (Hno props).
Qed.

Lemma reply_that_is_no_object_witness :
  (exists xs, JSON.parse (cleaned receipt_list) = Some (JArray xs))
  /\ normalize receipt_list = inl missing_fields
  /\ normalize (lit "null") = inl TypeError.
Proof.
  destruct (JSON.parse (cleaned receipt_list)) as [[| | | | |xs|]|] eqn:E;
    try (vm_compute in E; discriminate).
  split; [eauto|]. split.
  - apply (reply_that_is_no_object_fails receipt_list (JArray xs) E). discriminate.
  - apply (reply_that_is_no_object_fails (lit "null") JNull eq_refl). discriminate.
Defined.

(** ** The chat bridge *)

(** X11. A chat message never changes the application state and never
    throws: it returns the fixed instruction, the fixed apology, or a reply
    of the completion collaborator; it makes at most one completion call and
    produces no other event than that call and an error log. *)
Theorem chat_never_fails_or_writes blink message st :
  let o := run (handleChatMessage blink message) st in
  final o = st
  /\ (result o = inr upload_first
      \/ result o = inr chat_apology
      \/ exists prompt reply,
           ai_generateText blink (Prompt prompt) = inr reply /\ result o = inr reply)
  /\ (count is_completion (events o) <= 1)%nat
  /\ forallb (fun ev => is_completion ev || is_error_log ev) (events o) = true.
Proof.
  cbv zeta. run_flow.
  destruct (receiptData st) as [data|]; [|repeat split; auto].
  destruct (ToBoolean data); cbn [negb]; [|repeat split; auto].
  destruct (chat_prompt data message) as [e|prompt]; [repeat split; auto|].
  destruct (ai_generateText blink (Prompt prompt)) as [e|reply] eqn:E;
    cbn [result final events rev List.app].
  - repeat split; auto.
  - split; [reflexivity|]. split; [right; right; eauto|]. split; [auto|reflexivity].
Qed.

(** X12. With a record whose prompt can be built, exactly one completion call
    is made, with that prompt: when it resolves the reply is returned as it
    is, when it is rejected the rejection is logged and the fixed apology is
    returned. *)
Theorem chat_sends_one_prompt blink message st data prompt :
  receiptData st = Some data -> ToBoolean data = true ->
  chat_prompt data message = inr prompt ->
  let o := run (handleChatMessage blink message) st in
  match ai_generateText blink (Prompt prompt) with
  | inr reply =>
      o = {| result := inr reply; final := st;
             events := [AiGenerateText (Prompt prompt)] |}
  | inl e =>
      o = {| result := inr chat_apology; final := st;
             events := [AiGenerateText (Prompt prompt);
                        ConsoleError (lit "Chat message failed:") (LogExn e)] |}
  end.
Proof.
  intros Hd Ht Hp. cbv zeta.
  destruct (ai_generateText blink (Prompt prompt)) as [e|reply] eqn:E.
  - exact (chat_rejected blink message st data prompt e Hd Ht Hp E).
  - exact (chat_forwards blink message st data prompt reply Hd Ht Hp E).
Qed.

Lemma chat_sends_one_prompt_witness :
  let blink := collaborators (inr url) (inr dairy_answer) (inr tt) in
  receiptData with_receipt = Some corner_store_record
  /\ result (run (handleChatMessage blink dairy_question) with_receipt) = inr dairy_answer
  /\ count is_completion
       (events (run (handleChatMessage blink dairy_question) with_receipt)) = 1%nat.
Proof.
  intros blink. split; [reflexivity|].
  destruct (chat_prompt corner_store_record dairy_question) as [|prompt] eqn:Hp;
    [vm_compute in Hp; discriminate|].
  pose proof (chat_sends_one_prompt blink dairy_question with_receipt
                corner_store_record prompt eq_refl eq_refl Hp) as H.
  cbv zeta in H. change (ai_generateText blink (Prompt prompt)) with
    (@inr exn jsstring dairy_answer) in H.
  rewrite H. split; reflexivity.
Defined.

(** X13. When the [items] of the record is not an array (validation only asks
    for a truthy value), the prompt cannot be built: the bridge logs the
    error and returns the fixed apology without calling the completion
    collaborator. *)
Theorem chat_without_item_list_apologises blink message st props items :
  receiptData st = Some (JObject props) ->
  lookup (lit "items") props = Some items ->
  (forall xs, items <> JArray xs) ->
  exists e,
    run (handleChatMessage blink message) st =
      {| result := inr chat_apology; final := st;
         events := [ConsoleError (lit "Chat message failed:") (LogExn e)] |}.
Proof.
  intros Hd Hi Hna.
  destruct (chat_prompt_not_array props message items Hi Hna) as [e He].
  exists e. run_flow. rewrite Hd. cbn [ToBoolean negb]. rewrite He. reflexivity.
Qed.

Lemma chat_without_item_list_witness :
  let blink := collaborators (inr url) (inr vague_items) (inr tt) in
  let st := final (run (analyzeReceipt blink receipt_jpg) signed_in) in
  (exists props, receiptData st = Some (JObject props)
                 /\ lookup (lit "items") props = Some (JString (lit "milk and bread")))
  /\ result (run (handleChatMessage blink dairy_question) st) = inr chat_apology
  /\ count is_completion (events (run (handleChatMessage blink dairy_question) st)) = 0%nat.
Proof.
  intros blink st.
  assert (Hst : exists props,
             receiptData st = Some (JObject props)
             /\ lookup (lit "items") props = Some (JString (lit "milk and bread"))).
  { vm_compute. eexists. split; reflexivity. }
  split; [exact Hst|].
  destruct Hst as (props & Hd & Hi).
  destruct (chat_without_item_list_apologises blink dairy_question st props _ Hd Hi)
    as [e He]; [discriminate|].
  rewrite He. split; reflexivity.
Defined.

(** X14. For a record with a string merchant and date, a numeric total, an
    optional string category and items that are objects with a string [name]
    and a numeric [price], the prompt is the fixed text with the merchant, the
    date, the total, one [name - $price] entry for each item in document
    order separated by a comma and a space, the category ([undefined] when
    absent) and the user's message as it is. *)
Theorem chat_prompt_lists_items props message m d t xs lines category :
  lookup (lit "merchant") props = Some (JString m) ->
  lookup (lit "date") props = Some (JString d) ->
  lookup (lit "total") props = Some (JNumber t) ->
  lookup (lit "items") props = Some (JArray xs) ->
  Forall2 (fun x line => item_of x (fst line) (snd line)) xs lines ->
  lookup (lit "category") props = option_map JString category ->
  chat_prompt (JObject props) message =
    inr ([Chars (lit "You are an AI assistant helping users understand their receipt data. "
                 ++ nl ++ indent ++ nl
                 ++ indent ++ lit "Here is the receipt data:" ++ nl
                 ++ indent ++ lit "Merchant: "); Chars m;
          Chars (nl ++ indent ++ lit "Date: "); Chars d;
          Chars (nl ++ indent ++ lit "Total: $"); NumberToString t;
          Chars (nl ++ indent ++ lit "Items: ")]
         ++ join [Chars (lit ", ")] (List.map item_text lines)
         ++ [Chars (nl ++ indent ++ lit "Category: ");
             Chars (match category with Some s => s | None => lit "undefined" end);
             Chars (nl ++ indent ++ nl
                    ++ indent ++ lit "User question: " ++ message ++ nl
                    ++ indent ++ nl
                    ++ indent ++ lit "Please provide a helpful response about their receipt, spending patterns, or answer their specific question. Be conversational and helpful.")]).
Proof.
  intros Hm Hd Ht Hi Hitems Hc.
  unfold chat_prompt, cbind. cbn [Get]. unfold own_or_undefined.
  rewrite Hm, Hd, Ht, Hi, Hc. cbn [ToString items_summary]. unfold cbind.
  rewrite (map_items_typed xs lines Hitems).
  destruct category as [s|]; cbn [option_map ToString]; rewrite <- ?app_assoc; reflexivity.
Qed.

Lemma chat_prompt_lists_items_witness :
  exists prompt,
    chat_prompt corner_store_record dairy_question = inr prompt
    /\ firstn 7 (skipn 7 prompt) =
         [Chars (lit "Milk"); Chars (lit " - $"); NumberToString milk;
          Chars (lit ", ");
          Chars (lit "Bread"); Chars (lit " - $"); NumberToString bread].
Proof.
  destruct corner_store_record as [| | | | | |props] eqn:E;
    try (vm_compute in E; discriminate).
  assert (Hm : lookup (lit "merchant") props = Some (JString (lit "Corner Store")))
    by (vm_compute in E; injection E as <-; reflexivity).
  assert (Hd : lookup (lit "date") props = Some (JString (lit "01/02/2024")))
    by (vm_compute in E; injection E as <-; reflexivity).
  assert (Ht : lookup (lit "total") props = Some (JNumber twelve_fifty))
    by (vm_compute in E; injection E as <-; reflexivity).
  assert (Hi : lookup (lit "items") props =
               Some (JArray [JObject [(lit "name", JString (lit "Milk"));
                                      (lit "price", JNumber milk)];
                             JObject [(lit "name", JString (lit "Bread"));
                                      (lit "price", JNumber bread)]]))
    by (vm_compute in E; injection E as <-; reflexivity).
  assert (Hc : lookup (lit "category") props = option_map JString None)
    by (vm_compute in E; injection E as <-; reflexivity).
  assert (Hitems : Forall2 (fun x line => item_of x (fst line) (snd line))
                     [JObject [(lit "name", JString (lit "Milk"));
                               (lit "price", JNumber milk)];
                      JObject [(lit "name", JString (lit "Bread"));
                               (lit "price", JNumber bread)]]
                     [(lit "Milk", milk); (lit "Bread", bread)])
    by (repeat constructor; eexists; repeat split).
  rewrite (chat_prompt_lists_items props dairy_question _ _ _ _ _ None
             Hm Hd Ht Hi Hitems Hc).
  eexists. split; reflexivity.
Defined.

(** X15. Extraction and chat compose through the record: after a run that
    published a record, a chat message whose prompt can be built leads to
    exactly one completion call about that record, answered by the reply or
    by the apology; after a run that published nothing from an empty store,
    the chat still returns the fixed instruction and calls nobody. *)
Theorem chat_after_extraction blink file st message :
  let o := run (analyzeReceipt blink file) st in
  let c := run (handleChatMessage blink message) (final o) in
  (forall v prompt,
      In (SetReceiptData v) (events o) ->
      chat_prompt v message = inr prompt ->
      match ai_generateText blink (Prompt prompt) with
      | inr reply =>
          result c = inr reply /\ events c = [AiGenerateText (Prompt prompt)]
      | inl e =>
          result c = inr chat_apology
          /\ events c = [AiGenerateText (Prompt prompt);
                         ConsoleError (lit "Chat message failed:") (LogExn e)]
      end)
  /\ (receiptData st = None ->
      (forall v, ~ In (SetReceiptData v) (events o)) ->
      result c = inr upload_first /\ events c = []).
Proof.
  cbv zeta.
  destruct (analyze_store blink file st) as (_ & _ & Hpub & Hkeep).
  remember (final (run (analyzeReceipt blink file) st)) as st' eqn:Est.
  split.
  - intros v prompt Hin Hp.
    destruct (Hpub v Hin) as [Hv Hfinal].
    pose proof (valid_record_truthy v Hv) as Ht.
    destruct (ai_generateText blink (Prompt prompt)) as [e|reply] eqn:E.
    + rewrite (chat_rejected blink message st' v prompt e Hfinal Ht Hp E).
      split; reflexivity.
    + rewrite (chat_forwards blink message st' v prompt reply Hfinal Ht Hp E).
      split; reflexivity.
  - intros Hnone Hno. specialize (Hkeep Hno). rewrite Hnone in Hkeep.
    run_flow. rewrite Hkeep. split; reflexivity.
Qed.

Lemma chat_after_extraction_witness :
  let blink := collaborators (inr url) (inr shop_only) (inr tt) in
  let o := run (analyzeReceipt blink receipt_jpg) signed_in in
  receiptData signed_in = None
  /\ (forall v, ~ In (SetReceiptData v) (events o))
  /\ result (run (handleChatMessage blink dairy_question) (final o)) = inr upload_first.
Proof.
  intros blink o.
  assert (Hno : forall v, ~ In (SetReceiptData v) (events o)).
  { apply not_published. vm_compute. reflexivity. }
  split; [reflexivity|]. split; [exact Hno|].
  exact (proj1 (proj2 (chat_after_extraction blink receipt_jpg signed_in dairy_question)
                  eq_refl Hno)).
Defined.

(** ** The shell of the application *)

(** X16. A change of the authentication state replaces the user and the
    loading flag only: the record and the analyzing flag are kept, a chat
    message is answered exactly as before, and when another user is signed
    in the main screen passes the record that was there to the renderer and
    to the chat. *)
Theorem record_survives_auth_change blink message st u isLoading :
  let st' := onAuthStateChanged u isLoading st in
  receiptData st' = receiptData st
  /\ isAnalyzing st' = isAnalyzing st
  /\ result (run (handleChatMessage blink message) st') =
     result (run (handleChatMessage blink message) st)
  /\ events (run (handleChatMessage blink message) st') =
     events (run (handleChatMessage blink message) st)
  /\ (forall who, u = Some who -> isLoading = false ->
        render st' = MainScreen (email who) (isAnalyzing st)
                       (receiptData st) (isAnalyzing st) (receiptData st)).
Proof.
  cbv zeta. split; [reflexivity|]. split; [reflexivity|].
  split; [|split].
  - run_flow. cbn [onAuthStateChanged receiptData].
    destruct (receiptData st) as [data|]; [|reflexivity].
    destruct (ToBoolean data); cbn [negb]; [|reflexivity].
    destruct (chat_prompt data message); [reflexivity|].
    destruct (ai_generateText blink (Prompt t)); reflexivity.
  - run_flow. cbn [onAuthStateChanged receiptData].
    destruct (receiptData st) as [data|]; [|reflexivity].
    destruct (ToBoolean data); cbn [negb]; [|reflexivity].
    destruct (chat_prompt data message); [reflexivity|].
    destruct (ai_generateText blink (Prompt t)); reflexivity.
  - intros who -> ->. reflexivity.
Qed.

Lemma record_survives_auth_change_witness :
  let st' := onAuthStateChanged (Some other_user) false
               (onAuthStateChanged None false with_receipt) in
  render st' = MainScreen (lit "other@example.com") false
                 (Some corner_store_record) false (Some corner_store_record).
Proof.
  intros st'.
  exact (proj2 (proj2 (proj2 (proj2
           (record_survives_auth_change
              (collaborators (inr url) (inr dairy_answer) (inr tt)) dairy_question
              (onAuthStateChanged None false with_receipt) (Some other_user) false))))
           other_user eq_refl eq_refl).
Defined.

(** ** File Intake *)

(** X17. A delivery, by drop or by the picker, forwards at most one file. A
    forwarded file is the first of the delivered files and becomes the
    selected file; when nothing is forwarded the selected file is left as it
    was. *)
Theorem delivery_forwards_first_file d st :
  match ReceiptUpload.deliver d st with
  | (st', []) => ReceiptUpload.selectedFile st' = ReceiptUpload.selectedFile st
  | (st', [file]) =>
      ReceiptUpload.selectedFile st' = Some file /\ head (delivered d) = Some file
  | (_, _ :: _ :: _) => False
  end.
Proof.
  destruct d as [[|f rest]|[|f rest]]; try reflexivity.
  - cbn [ReceiptUpload.deliver ReceiptUpload.handleDrop].
    destruct (startsWith (file_type f) (lit "image/")); [split|]; reflexivity.
  - split; reflexivity.
Qed.

(** X18. Through any sequence of drag events, drops and clears, a component
    that shows an image or nothing keeps doing so, and every file it
    forwards is an image. *)
Theorem pointer_sessions_show_images_only evs st :
  shows_image_or_nothing st ->
  shows_image_or_nothing (fst (pointer_session evs st))
  /\ Forall is_image (snd (pointer_session evs st)).
Proof.
  revert st. induction evs as [|ev evs IH]; intros st H.
  - split; [exact H|constructor].
  - cbn [pointer_session].
    destruct (pointer_step_keeps_images ev st H) as [H1 Hc1].
    destruct (pointer_step ev st) as [st1 calls1]. cbn [fst snd] in *.
    destruct (IH st1 H1) as [H2 Hc2].
    destruct (pointer_session evs st1) as [st2 calls2]. cbn [fst snd] in *.
    split; [exact H2|]. apply Forall_app. split; assumption.
Qed.

Lemma pointer_sessions_witness :
  shows_image_or_nothing idle
  /\ pointer_session [Drag ReceiptUpload.dragenter; Drop [report_pdf];
                      Drop [receipt_jpg; report_pdf]; Clear; Drop [report_pdf]] idle
     = (idle, [receipt_jpg])
  /\ Forall is_image [receipt_jpg].
Proof.
  split; [exact I|]. split; [reflexivity|].
  exact (proj2 (pointer_sessions_show_images_only
                  [Drag ReceiptUpload.dragenter; Drop [report_pdf];
                   Drop [receipt_jpg; report_pdf]; Clear; Drop [report_pdf]]
                  idle I)).
Defined.

(** X19. The view offers the controls the state allows: the button that
    clears the selection is rendered exactly when a file is selected and no
    analysis is running; the file input is rendered exactly when no file is
    selected, and is disabled exactly while an analysis is running; the drop
    zone carries [pointer-events-none] exactly while an analysis is
    running. *)
Theorem intake_controls_follow_state st isAnalyzing :
  let view := ReceiptUploadView.ReceiptUpload st isAnalyzing in
  existsb ReceiptUploadView.is_clear_button (ReceiptUploadView.nodes view)
    = (match ReceiptUpload.selectedFile st with Some _ => true | None => false end)
      && negb isAnalyzing
  /\ ReceiptUploadView.file_inputs view
     = (match ReceiptUpload.selectedFile st with Some _ => [] | None => [isAnalyzing] end)
  /\ List.map (fun c => ReceiptUploadView.includes c (lit "pointer-events-none"))
       (ReceiptUploadView.drop_zone_class view)
     = [isAnalyzing].
Proof.
  destruct st as [drag [file|]]; destruct isAnalyzing; destruct drag;
    cbv zeta; repeat split; reflexivity.
Qed.

(** X20. Wired to the orchestrator, a drop starts the extraction of its first
    file when that file is an image, and nothing at all otherwise: no event,
    no change of the application state. *)
Theorem drop_starts_extraction_for_images_only blink files ui st :
  snd (intake blink (ReceiptUpload.PointerDrop files) ui st) =
    match files with
    | file :: _ =>
        if startsWith (file_type file) (lit "image/")
        then run (analyzeReceipt blink file) st
        else {| result := inr tt; final := st; events := [] |}
    | [] => {| result := inr tt; final := st; events := [] |}
    end.
Proof.
  unfold intake, ReceiptUpload.deliver, ReceiptUpload.handleDrop.
  destruct files as [|file rest]; [reflexivity|].
  destruct (startsWith (file_type file) (lit "image/")); [|reflexivity].
  cbn [snd]. apply run_single.
Qed.

(** ** The renderer *)

(** X21. The item list has one row for each item, in document order. A row
    shows the name, then the quantity as [(xq)] when the quantity is present
    and truthy and no annotation when it is absent, and the price. *)
Theorem item_rows_follow_items (data : ReceiptData) :
  exists rows,
    items_list data = Element "div" [Element "h3" [str "Items"]; Element "div" rows]
    /\ length rows = length (items data)
    /\ forall i item,
         nth_error (items data) i = Some item ->
         exists annotation,
           nth_error rows i =
             Some (Element "div"
                     [Element "div"
                        (Element "span" [Text [Chars (name item)]] :: annotation);
                      Element "span" [money (price item)]])
           /\ (quantity item = None -> annotation = [])
           /\ (forall q, quantity item = Some q -> number_truthy q = true ->
                 annotation =
                   [Element "span"
                      [Text [Chars (lit "(x"); NumberToString q; Chars (lit ")")]]]).
Proof.
  exists (List.map item_row (items data)).
  split; [reflexivity|]. split; [apply length_map|].
  intros i item Hi.
  exists (and_number (quantity item)
            (fun q => Element "span"
                        [Text [Chars (lit "(x"); NumberToString q; Chars (lit ")")]])).
  split; [rewrite nth_error_map, Hi; reflexivity|].
  split; [intros ->; reflexivity|].
  intros q -> Hq. unfold and_number. now rewrite Hq.
Qed.

Lemma item_rows_witness :
  nth_error (items groceries) 0 = Some two_bottles
  /\ exists rows,
       items_list groceries = Element "div" [Element "h3" [str "Items"]; Element "div" rows]
       /\ nth_error rows 0 =
            Some (Element "div"
                    [Element "div"
                       [Element "span" [Text [Chars (lit "Water")]];
                        Element "span"
                          [Text [Chars (lit "(x");
                                 NumberToString (S754_finite false 4503599627370496 (-51));
                                 Chars (lit ")")]]];
                     Element "span" [money one]]).
Proof.
  split; [reflexivity|].
  destruct (item_rows_follow_items groceries) as (rows & Hlist & _ & Hrows).
  exists rows. split; [exact Hlist|].
  destruct (Hrows 0%nat two_bottles eq_refl) as (annotation & Hrow & _ & Hq).
  rewrite Hrow. now rewrite (Hq _ eq_refl eq_refl).
Defined.

(** X22. The populated card holds the summary, the item list and the totals
    in this order; the category badge stands between the summary and the
    item list exactly when the category is a non-empty string. *)
Theorem category_badge_when_named (data : ReceiptData) :
  exists badge,
    populated data =
      Element "Card"
        [Element "CardHeader"
           [Element "CardTitle"
              [Element "Receipt" []; Element "span" [str "Receipt Analysis"]]];
         Element "CardContent"
           (summary_cards data :: badge
            ++ [items_list data; Element "div" [Element "div" (totals_breakdown data)]])]
    /\ (forall c, category data = Some c -> c <> [] ->
          badge = [Element "div" [Element "Badge" [Text [Chars c]]]])
    /\ (category data = None \/ category data = Some [] -> badge = []).
Proof.
  exists (category_badge data). split; [reflexivity|]. unfold category_badge. split.
  - intros c -> Hc. destruct c; [congruence|reflexivity].
  - intros [->| ->]; reflexivity.
Qed.

Lemma category_badge_witness :
  category groceries = Some (lit "Grocery")
  /\ exists rest,
       populated groceries =
         Element "Card"
           [Element "CardHeader"
              [Element "CardTitle"
                 [Element "Receipt" []; Element "span" [str "Receipt Analysis"]]];
            Element "CardContent"
              (summary_cards groceries
               :: Element "div" [Element "Badge" [Text [Chars (lit "Grocery")]]]
               :: rest)].
Proof.
  split; [reflexivity|].
  destruct (category_badge_when_named groceries) as (badge & Hp & Hb & _).
  rewrite (Hb (lit "Grocery") eq_refl) in Hp by discriminate.
  eexists. exact Hp.
Defined.

(** X23. The skeleton is rendered exactly while loading, whatever the record;
    the empty state exactly when nothing is loading and there is no
    record. *)
Theorem loading_and_empty_states (data : option ReceiptData) (isLoading : bool) :
  (ReceiptAnalysis data isLoading = skeleton <-> isLoading = true)
  /\ (ReceiptAnalysis data isLoading = empty_state <->
      isLoading = false /\ data = None).
Proof.
  destruct isLoading; destruct data as [d|]; cbn [ReceiptAnalysis];
    (split; split; try discriminate; try reflexivity; try (intros [? ?]; discriminate);
     try (split; reflexivity)).
Qed.

